(** * Learnova: the real-time relay of the server and the cache eviction of
    the service worker

    The server keeps one process-wide [Map] of active users and registers
    its handlers on every admitted socket; the service worker trims a cache
    by deleting its oldest keys.  Both are embedded below as executable
    definitions: the relay as a state-and-exception monad over a [World]
    that holds the registry, the socket.io namespace and adapter, the clock
    and the trace of observable effects; the cache as a list in insertion
    order. *)

From Stdlib Require Import ZArith Ascii.
From stdpp Require Import gmap strings list fin_maps pretty.

Local Open Scope string_scope.
Local Open Scope list_scope.
Set Warnings "-register-all,-clear-no-such-hyp".

(** ** JavaScript values that travel in socket.io packets *)

Module JS.

(** Packets are decoded with [JSON.parse]; [JUndefined] is an argument that
    was not sent.  A number is a double, and of a number the handlers only
    ask how it prints in a template literal, whether it is truthy, and to
    pass it on: [JNum] keeps a number by the text [Number::toString] gives
    for it, which tells the finite numbers apart up to the sign of zero
    ([JNum "42"], [JNum "-0.5"], [JNum "1e+21"], [JNum "1152921504606847000"]
    for 2^60; both zeros are [JNum "0"]).  The fields of a [JObj] are the own
    properties of a plain object (prototype [Object.prototype]), looked up
    by first match. *)
Inductive JSValue : Type :=
  | JUndefined
  | JNull
  | JBool (b : bool)
  | JNum (text : string)
  | JStr (s : string)
  | JArr (elems : list JSValue)
  | JObj (fields : list (string * JSValue)).

Inductive Exn : Type :=
  | TypeError (message : string)
  | JsonWebTokenError (message : string).

Inductive Completion (A : Type) : Type :=
  | Normal (a : A)
  | Throw (e : Exn).
Arguments Normal {A} a.
Arguments Throw {A} e.

Fixpoint own_property (fields : list (string * JSValue)) (k : string)
  : option JSValue :=
  match fields with
  | [] => None
  | (k', v) :: rest => if String.eqb k' k then Some v else own_property rest k
  end.

(** [ToString], as a template literal applies it.  A plain object is
    converted by [OrdinaryToPrimitive]: an own [toString] property of a
    decoded object is never callable, and the inherited [valueOf] returns
    the object itself, so the conversion throws; without an own [toString]
    the inherited one answers "[object Object]".  An array is joined with
    commas, [null] and [undefined] elements printing as the empty string.
    A number prints as the text that stands for it. *)
Fixpoint ToString (v : JSValue) : Completion string :=
  match v with
  | JUndefined => Normal "undefined"
  | JNull => Normal "null"
  | JBool true => Normal "true"
  | JBool false => Normal "false"
  | JNum text => Normal text
  | JStr s => Normal s
  | JArr elems =>
      (fix join (l : list JSValue) : Completion string :=
         match l with
         | [] => Normal ""
         | x :: rest =>
             let elem :=
               match x with
               | JUndefined | JNull => Normal ""
               | _ => ToString x
               end in
             match elem with
             | Throw e => Throw e
             | Normal s =>
                 match rest with
                 | [] => Normal s
                 | _ :: _ =>
                     match join rest with
                     | Throw e => Throw e
                     | Normal t => Normal (s +:+ "," +:+ t)
                     end
                 end
             end
         end) elems
  | JObj fields =>
      match own_property fields "toString" with
      | Some _ => Throw (TypeError "Cannot convert object to primitive value")
      | None => Normal "[object Object]"
      end
  end.

(** [!v] is false exactly on the truthy values; of the numbers, the zeros
    and NaN are not truthy. *)
Definition truthy (v : JSValue) : bool :=
  match v with
  | JUndefined | JNull | JBool false | JStr "" => false
  | JNum text => negb (String.eqb text "0" || String.eqb text "NaN")
  | _ => true
  end.

(** [const { k1, k2 } = data] first requires [data] to be coercible to an
    object, then reads the properties. *)
Definition RequireObjectCoercible (data : JSValue) : Completion unit :=
  match data with
  | JUndefined => Throw (TypeError "Cannot destructure 'data' as it is undefined.")
  | JNull => Throw (TypeError "Cannot destructure 'data' as it is null.")
  | _ => Normal tt
  end.

(** [data.k] for the keys the handlers read ([groupId], [type], [content],
    [sessionId], [progress], [accuracy], [roomId], [token]): none of them
    is defined on a prototype, so only own properties answer. *)
Definition Get (data : JSValue) (k : string) : JSValue :=
  match data with
  | JObj fields => default JUndefined (own_property fields k)
  | _ => JUndefined
  end.

End JS.
Export JS.

(** ** The relay: registry, namespace, adapter and handlers *)

Module Relay.

(** [activeUsers] values: [{ socketId, connectedAt, lastSeen }]; the dates
    are milliseconds since the epoch. *)
Record PresenceEntry : Type := {
  socketId : string;
  connectedAt : Z;
  lastSeen : Z
}.

(** What the gate attaches to an admitted socket, with the id the engine
    gave it. *)
Record Socket : Type := {
  id : string;
  userId : string;
  userEmail : string
}.

(** The payload of a verified token, as [jwt.sign] issued it. *)
Record Decoded : Type := {
  d_userId : string;
  d_email : string
}.

Inductive OutEvent : Type :=
  | user_online (uid : string) (timestamp : Z)
  | user_offline (uid : string) (timestamp : Z)
  | user_joined_group (uid : string) (groupId : JSValue) (timestamp : Z)
  | collaboration_update (uid : string) (type content : JSValue) (timestamp : Z)
  | practice_update (uid : string) (progress accuracy : JSValue) (timestamp : Z)
  | user_typing (uid : string) (timestamp : Z)
  | heartbeat_ack (timestamp : Z)
  | error_event (message : string).

(** The update [User.findByIdAndUpdate(id, { isOnline, lastActive })]. *)
Record DbUpdate : Type := {
  db_id : string;
  db_isOnline : bool;
  db_lastActive : Z
}.

(** Observable effects, oldest first. [Emit to ev] is one [emit] call with
    the sockets the adapter selected; [Query] is a store update being
    issued; [ConnectError] is the refusal sent to a client whose handshake
    the gate rejected. *)
Inductive Effect : Type :=
  | Emit (recipients : gset string) (ev : OutEvent)
  | ConsoleLog (text : string)
  | ConsoleError (label : string) (error : Exn)
  | Query (update : DbUpdate)
  | ConnectError (sid : string) (message : string).

Record World : Type := {
  activeUsers : gmap string PresenceEntry;
  sockets : gmap string Socket;          (* the namespace's connected sockets *)
  rooms : gmap string (gset string);     (* the adapter: room name to socket ids *)
  dates : nat;                           (* Date objects constructed so far *)
  trace : list Effect;
  pending : list DbUpdate;               (* queries issued and not yet settled *)
  db : gmap string (bool * Z);           (* the users collection: isOnline, lastActive *)
  User : bool                            (* whether the User model was created *)
}.

Definition init (user_model : bool) (users : gmap string (bool * Z)) : World :=
  {| activeUsers := ∅; sockets := ∅; rooms := ∅; dates := 0; trace := [];
     pending := []; db := users; User := user_model |}.

Definition with_activeUsers (f : gmap string PresenceEntry → gmap string PresenceEntry)
    (w : World) : World :=
  {| activeUsers := f (activeUsers w); sockets := sockets w; rooms := rooms w;
     dates := dates w; trace := trace w; pending := pending w; db := db w;
     User := User w |}.

Definition with_sockets (f : gmap string Socket → gmap string Socket)
    (w : World) : World :=
  {| activeUsers := activeUsers w; sockets := f (sockets w); rooms := rooms w;
     dates := dates w; trace := trace w; pending := pending w; db := db w;
     User := User w |}.

Definition with_rooms (f : gmap string (gset string) → gmap string (gset string))
    (w : World) : World :=
  {| activeUsers := activeUsers w; sockets := sockets w; rooms := f (rooms w);
     dates := dates w; trace := trace w; pending := pending w; db := db w;
     User := User w |}.

Definition with_dates (f : nat → nat) (w : World) : World :=
  {| activeUsers := activeUsers w; sockets := sockets w; rooms := rooms w;
     dates := f (dates w); trace := trace w; pending := pending w; db := db w;
     User := User w |}.

Definition with_trace (f : list Effect → list Effect) (w : World) : World :=
  {| activeUsers := activeUsers w; sockets := sockets w; rooms := rooms w;
     dates := dates w; trace := f (trace w); pending := pending w; db := db w;
     User := User w |}.

Definition with_pending (f : list DbUpdate → list DbUpdate) (w : World) : World :=
  {| activeUsers := activeUsers w; sockets := sockets w; rooms := rooms w;
     dates := dates w; trace := trace w; pending := f (pending w); db := db w;
     User := User w |}.

Definition with_db (f : gmap string (bool * Z) → gmap string (bool * Z))
    (w : World) : World :=
  {| activeUsers := activeUsers w; sockets := sockets w; rooms := rooms w;
     dates := dates w; trace := trace w; pending := pending w; db := f (db w);
     User := User w |}.

(** *** Handlers run in a state monad with JavaScript exceptions: a throw
    keeps the state reached so far. *)
Definition M (A : Type) : Type := World → Completion A * World.

Definition ret {A} (a : A) : M A := λ w, (Normal a, w).

Definition bind {A B} (m : M A) (k : A → M B) : M B :=
  λ w, match m w with
       | (Normal a, w') => k a w'
       | (Throw e, w') => (Throw e, w')
       end.

Definition lift {A} (c : Completion A) : M A := λ w, (c, w).

Definition try_catch {A} (body : M A) (handler : Exn → M A) : M A :=
  λ w, match body w with
       | (Normal a, w') => (Normal a, w')
       | (Throw e, w') => handler e w'
       end.

Definition update (f : World → World) : M unit := λ w, (Normal tt, f w).

Definition read {A} (f : World → A) : M A := λ w, (Normal (f w), w).

#[local] Notation "x <- m ;; k" := (bind m (λ x, k))
  (at level 100, m at next level, right associativity).
#[local] Notation "m ;;; k" := (bind m (λ _, k))
  (at level 100, right associativity).

(** *** socket.io, in-memory adapter *)

Definition members (room : string) (w : World) : gset string :=
  default ∅ (rooms w !! room).

(** [adapter.addAll(id, {room})] *)
Definition adapter_add (sid room : string) (rs : gmap string (gset string))
  : gmap string (gset string) :=
  <[room := {[sid]} ∪ default ∅ (rs !! room)]> rs.

(** [adapter.delAll(id)]: the socket leaves every room and a room left
    empty is deleted. *)
Definition adapter_delAll (sid : string) (rs : gmap string (gset string))
  : gmap string (gset string) :=
  omap (λ s : gset string,
          if decide (s ∖ {[sid]} = ∅) then None else Some (s ∖ {[sid]})) rs.

(** The rooms map is only ever keyed by strings, so a room given as any
    other value has no members; [to] accepts one room or an array. *)
Definition room_members (w : World) (room : JSValue) : gset string :=
  match room with
  | JStr name => members name w
  | _ => ∅
  end.

Definition to_rooms (room : JSValue) : list JSValue :=
  match room with
  | JArr rs => rs
  | r => [r]
  end.

(** [adapter.broadcast]: with no target room every socket of the namespace
    is addressed, otherwise the members of the target rooms; the members of
    the excepted rooms are left out, and only connected sockets receive. *)
Definition recipients (w : World) (targets except : list JSValue) : gset string :=
  let addressed :=
    match targets with
    | [] => dom (sockets w)
    | _ => ⋃ (room_members w <$> targets)
    end in
  (addressed ∖ ⋃ (room_members w <$> except)) ∩ dom (sockets w).

Definition effect (e : Effect) : M unit :=
  update (with_trace (λ t, (t ++ [e])%list)).

(** [socket.join(room)] *)
Definition socket_join (socket : Socket) (room : string) : M unit :=
  update (with_rooms (adapter_add (id socket) room)).

(** [socket.to(room).emit(ev)]: the sender's own room is excepted. *)
Definition socket_to_emit (socket : Socket) (room : JSValue) (ev : OutEvent) : M unit :=
  λ w, effect (Emit (recipients w (to_rooms room) [JStr (id socket)]) ev) w.

(** [socket.broadcast.emit(ev)] *)
Definition socket_broadcast_emit (socket : Socket) (ev : OutEvent) : M unit :=
  λ w, effect (Emit (recipients w [] [JStr (id socket)]) ev) w.

(** [socket.emit(ev)]: to this socket alone. *)
Definition socket_emit (socket : Socket) (ev : OutEvent) : M unit :=
  effect (Emit {[id socket]} ev).

Definition console_log (text : string) : M unit := effect (ConsoleLog text).

Definition console_error (label : string) (error : Exn) : M unit :=
  effect (ConsoleError label error).

Inductive Admission : Type :=
  | Admit (socket : Socket)
  | Refuse (message : string).

Inductive InboundEvent : Type :=
  | join_study_group (groupId : JSValue)
  | collaboration_update_in (data : JSValue)
  | practice_update_in (data : JSValue)
  | typing (data : JSValue)
  | heartbeat.

Inductive Input : Type :=
  | Connect (sid : string) (auth : list (string * JSValue))
  | Receive (sid : string) (ev : InboundEvent)
  | Disconnect (sid : string) (reason : string)
  | Settle (n : nat) (ok : bool).

Section Server.

(** The server's clock: [clock n] is the time the [n]-th [new Date()] of
    the process reads. *)
Variable clock : nat → Z.

(** [jwt.verify(token, JWT_SECRET)] on a string: the decoded payload, or
    the error the library throws (bad signature, expired, malformed). *)
Variable jwt_verify : string → Completion Decoded.

Definition new_Date : M Z :=
  λ w, (Normal (clock (dates w)), with_dates S w).

Definition verify (token : JSValue) : Completion Decoded :=
  match token with
  | JStr s => jwt_verify s
  | _ => Throw (JsonWebTokenError "jwt must be a string")
  end.

(** [io.use((socket, next) => ...)].  [auth] holds the properties of
    [socket.handshake.auth], which socket.io always hands over as an object
    (the empty one when the client sent none). *)
Definition gate (sid : string) (auth : list (string * JSValue)) : M Admission :=
  try_catch
    (let token := Get (JObj auth) "token" in
     if negb (truthy token) then
       ret (Refuse "Authentication error: No token provided")
     else
       decoded <- lift (verify token);;
       ret (Admit {| id := sid; userId := d_userId decoded;
                     userEmail := d_email decoded |}))
    (λ err,
       console_error "Socket Auth Error:" err;;;
       ret (Refuse "Authentication error: Invalid token")).

(** [socket.on('join-study-group', (groupId) => ...)] *)
Definition on_join_study_group (socket : Socket) (groupId : JSValue) : M unit :=
  try_catch
    (room <- lift (ToString groupId);;
     socket_join socket ("group-" +:+ room);;;
     timestamp <- new_Date;;
     socket_to_emit socket (JStr ("group-" +:+ room))
       (user_joined_group (userId socket) groupId timestamp);;;
     console_log ("User " +:+ userId socket +:+ " joined study group " +:+ room))
    (λ error,
       console_error "Join Study Group Error:" error;;;
       socket_emit socket (error_event "Failed to join study group")).

(** [socket.on('collaboration-update', (data) => ...)] *)
Definition on_collaboration_update (socket : Socket) (data : JSValue) : M unit :=
  try_catch
    (lift (RequireObjectCoercible data);;;
     let groupId := Get data "groupId" in
     let type := Get data "type" in
     let content := Get data "content" in
     room <- lift (ToString groupId);;
     timestamp <- new_Date;;
     socket_to_emit socket (JStr ("group-" +:+ room))
       (collaboration_update (userId socket) type content timestamp))
    (λ error, console_error "Collaboration Update Error:" error).

(** [socket.on('practice-update', (data) => ...)] *)
Definition on_practice_update (socket : Socket) (data : JSValue) : M unit :=
  try_catch
    (lift (RequireObjectCoercible data);;;
     let sessionId := Get data "sessionId" in
     let progress := Get data "progress" in
     let accuracy := Get data "accuracy" in
     room <- lift (ToString sessionId);;
     timestamp <- new_Date;;
     socket_to_emit socket (JStr ("session-" +:+ room))
       (practice_update (userId socket) progress accuracy timestamp))
    (λ error, console_error "Practice Update Error:" error).

(** [socket.on('typing', (data) => ...)] *)
Definition on_typing (socket : Socket) (data : JSValue) : M unit :=
  try_catch
    (lift (RequireObjectCoercible data);;;
     let roomId := Get data "roomId" in
     timestamp <- new_Date;;
     socket_to_emit socket roomId (user_typing (userId socket) timestamp))
    (λ error, console_error "Typing Indicator Error:" error).

(** [socket.on('heartbeat', () => ...)] *)
Definition on_heartbeat (socket : Socket) : M unit :=
  user <- read (λ w, activeUsers w !! userId socket);;
  match user with
  | Some user =>
      now <- new_Date;;
      update (with_activeUsers
                <[userId socket := {| socketId := socketId user;
                                      connectedAt := connectedAt user;
                                      lastSeen := now |}]>)
  | None => ret tt
  end;;;
  timestamp <- new_Date;;
  socket_emit socket (heartbeat_ack timestamp).

(** [socket.on('disconnect', (reason) => ...)].  The query is issued here
    and settles later; its rejection handler is [() => {}]. *)
Definition on_disconnect (socket : Socket) (reason : string) : M unit :=
  console_log ("❌ User " +:+ userId socket +:+ " disconnected: " +:+ reason);;;
  update (with_activeUsers (delete (userId socket)));;;
  model <- read User;;
  (if model : bool then
     lastActive <- new_Date;;
     let query := {| db_id := userId socket; db_isOnline := false;
                     db_lastActive := lastActive |} in
     effect (Query query);;;
     update (with_pending (λ q, (q ++ [query])%list))
   else ret tt);;;
  timestamp <- new_Date;;
  socket_broadcast_emit socket (user_offline (userId socket) timestamp).

(** [io.on('connection', (socket) => ...)]: the statements before the
    handlers are registered. *)
Definition on_connection (socket : Socket) : M unit :=
  console_log ("✅ User " +:+ userId socket +:+ " connected via Socket.io");;;
  connected <- new_Date;;
  seen <- new_Date;;
  update (with_activeUsers
            <[userId socket := {| socketId := id socket; connectedAt := connected;
                                  lastSeen := seen |}]>);;;
  socket_join socket ("user-" +:+ userId socket);;;
  timestamp <- new_Date;;
  socket_broadcast_emit socket (user_online (userId socket) timestamp).

Definition dispatch (socket : Socket) (ev : InboundEvent) : M unit :=
  match ev with
  | join_study_group groupId => on_join_study_group socket groupId
  | collaboration_update_in data => on_collaboration_update socket data
  | practice_update_in data => on_practice_update socket data
  | typing data => on_typing socket data
  | heartbeat => on_heartbeat socket
  end.

(** *** What socket.io does around the handlers *)

(** A connection attempt: the middleware runs once; a refused socket is
    told why and never enters the namespace; an admitted one is added to
    the namespace, joins the room named by its own id, and the
    [connection] listener runs. *)
Definition connect (sid : string) (auth : list (string * JSValue)) : M unit :=
  admission <- gate sid auth;;
  match admission with
  | Refuse message => effect (ConnectError sid message)
  | Admit socket =>
      update (with_sockets <[sid := socket]>);;;
      socket_join socket sid;;;
      on_connection socket
  end.

(** A packet from a client reaches the listeners of its connected socket
    only. *)
Definition receive (sid : string) (ev : InboundEvent) : M unit :=
  λ w, match sockets w !! sid with
       | Some socket => dispatch socket ev w
       | None => (Normal tt, w)
       end.

(** Closing a socket, for whatever reason: it leaves all its rooms and
    the namespace, then the [disconnect] listener runs. *)
Definition disconnect (sid : string) (reason : string) : M unit :=
  λ w, match sockets w !! sid with
       | Some socket =>
           (update (with_rooms (adapter_delAll sid));;;
            update (with_sockets (delete sid));;;
            on_disconnect socket reason) w
       | None => (Normal tt, w)
       end.

(** The [n]-th pending query settles: fulfilled, the document with that id
    (if any) is updated; rejected, [.catch(() => {})] runs. *)
Definition settle (n : nat) (ok : bool) : M unit :=
  λ w, match pending w !! n with
       | Some u =>
           (update (with_pending (delete n));;;
            if ok then
              update (with_db (alter (λ _, (db_isOnline u, db_lastActive u)) (db_id u)))
            else ret tt) w
       | None => (Normal tt, w)
       end.

Definition step (i : Input) : M unit :=
  match i with
  | Connect sid auth => connect sid auth
  | Receive sid ev => receive sid ev
  | Disconnect sid reason => disconnect sid reason
  | Settle n ok => settle n ok
  end.

Definition run (inputs : list Input) (w : World) : World :=
  fold_left (λ w i, (step i w).2) inputs w.

(** Ids the engine hands out are not application room names. *)
Definition engine_id (sid : string) : bool :=
  negb (String.prefix "group-" sid) && negb (String.prefix "user-" sid).

(** The states the server can be in: the engine gives every connection a
    new id. *)
Inductive reachable : World → Prop :=
  | reachable_init user_model users : reachable (init user_model users)
  | reachable_connect w sid auth :
      reachable w → sockets w !! sid = None → engine_id sid = true →
      reachable (connect sid auth w).2
  | reachable_receive w sid ev :
      reachable w → reachable (receive sid ev w).2
  | reachable_disconnect w sid reason :
      reachable w → reachable (disconnect sid reason w).2
  | reachable_settle w n ok :
      reachable w → reachable (settle n ok w).2.

(** The namespace and the adapter agree: every connected socket carries
    its own id, which is an engine id, and is the one member of the room of
    that name; every room is non-empty, holds connected sockets only, and
    is either such a private room or carries an application name. *)
Definition wf_net (ss : gmap string Socket) (rs : gmap string (gset string)) : Prop :=
  (∀ s socket, ss !! s = Some socket →
     id socket = s ∧ engine_id s = true ∧ rs !! s = Some {[s]}) ∧
  (∀ r ms, rs !! r = Some ms →
     ms ≠ ∅ ∧ ms ⊆ dom ss ∧ (is_Some (ss !! r) ∨ engine_id r = false)).

(** Every [lastSeen] of the registry is a reading the clock has given. *)
Definition wf_seen (w : World) : Prop :=
  ∀ u e, activeUsers w !! u = Some e → ∃ k, k < dates w ∧ lastSeen e = clock k.

Definition wf (w : World) : Prop :=
  wf_net (sockets w) (rooms w) ∧ wf_seen w.

End Server.

(** Every registry entry is backed by a connected socket of its
    identity. *)
Definition backed (w : World) : Prop :=
  ∀ u e, activeUsers w !! u = Some e →
    ∃ sid socket, sockets w !! sid = Some socket ∧ userId socket = u.

(** The registry entries held for an identity, out of
    [activeUsers.entries()]. *)
Definition entries_of (u : string) (w : World) : list (string * PresenceEntry) :=
  filter (λ kv : string * PresenceEntry, kv.1 = u) (map_to_list (activeUsers w)).

(** The effects a step added to the trace. *)
Definition new_effects (w w' : World) : list Effect :=
  drop (length (trace w)) (trace w').

End Relay.

(** ** The service worker's dynamic cache *)

Module ServiceWorker.

(** A cache is the list of its entries, oldest first: the order in which
    [cache.keys()] enumerates them.  A request is its URL. *)
Record Response : Type := {
  status : nat;
  body : string
}.

Definition Entry : Type := string * Response.

Definition cache_keys (cache : list Entry) : list string := cache.*1.

(** [cache.match(request)] *)
Definition cache_match (request : string) (cache : list Entry) : option Response :=
  (list_find (λ e : Entry, e.1 = request) cache) ≫= λ found, Some found.2.2.

(** [cache.delete(key)] *)
Definition cache_delete (key : string) (cache : list Entry) : list Entry :=
  filter (λ e : Entry, e.1 ≠ key) cache.

(** A partial response, status 206: it is [ok], and it is the response a
    cache does not take. *)
Definition partial (response : Response) : bool := (status response =? 206)%nat.

(** [cache.put(request, response)], which no handler awaits.  For a partial
    response the promise rejects and the cache stays as it is (nothing
    handles the rejection).  Otherwise the entry stored for the request, if
    any, is removed and the new one is appended.  Of the other reasons for
    which [put] rejects, a method other than GET is ruled out by the
    listener; a URL that is not http(s) and a [Vary: *] header are outside
    this model, where a request is a URL and a response a status and a
    body. *)
Definition cache_put (request : string) (response : Response)
    (cache : list Entry) : list Entry :=
  if partial response then cache
  else cache_delete request cache ++ [(request, response)].

(** [keys.slice(0, keys.length - maxItems)], taken when
    [keys.length > maxItems]. *)
Definition keysToDelete (maxItems : nat) (cache : list Entry) : list string :=
  let keys := cache_keys cache in
  if (maxItems <? length keys)%nat then take (length keys - maxItems) keys else [].

Definition delete_all (keys : list string) (cache : list Entry) : list Entry :=
  foldl (λ c key, cache_delete key c) cache keys.

(** [limitCacheSize(cacheName, maxItems)] on the cache of that name, run
    to completion with no other cache operation in between. *)
Definition limitCacheSize (maxItems : nat) (cache : list Entry) : list Entry :=
  delete_all (keysToDelete maxItems cache) cache.

Definition DYNAMIC_LIMIT : nat := 50.

(** [handleDynamicRequest] calls [limitCacheSize(DYNAMIC_CACHE, 50)]
    without awaiting it and then [cache.put]; both go on asynchronously.
    The schedule says where the put lands among the operations of its own
    handler: before the keys are read, or after them, once [n] of the
    deletions are done (the whole trimming first, as the statements are
    written, when [n] covers them all). *)
Inductive Schedule : Type :=
  | PutBeforeKeys
  | PutAfterDeletes (n : nat).

(** The trimming and the put of one handler, when no operation of another
    handler falls between them.  Handlers do overlap: [overlapped] below
    runs the operations of several handlers in any order, and
    [alone] is the order this definition follows. *)
Definition trim_and_put (schedule : Schedule) (request : string)
    (response : Response) (cache : list Entry) : list Entry :=
  match schedule with
  | PutBeforeKeys => limitCacheSize DYNAMIC_LIMIT (cache_put request response cache)
  | PutAfterDeletes n =>
      let keys := keysToDelete DYNAMIC_LIMIT cache in
      delete_all (drop n keys)
        (cache_put request response (delete_all (take n keys) cache))
  end.

(** [fetch(request)]: a response, or a rejection. *)
Inductive Fetch : Type :=
  | Fetched (response : Response)
  | NetworkError.

(** [response.ok] *)
Definition ok (response : Response) : bool :=
  (200 <=? status response)%nat && (status response <=? 299)%nat.

(** [handleDynamicRequest(request)]: the response served and the dynamic
    cache afterwards, for a handler whose cache operations are not
    interleaved with those of another handler. *)
Definition handleDynamicRequest (schedule : Schedule) (request : string)
    (fetched : Fetch) (cache : list Entry) : Response * list Entry :=
  match fetched with
  | Fetched response =>
      (response,
       if ok response then trim_and_put schedule request response cache
       else cache)
  | NetworkError =>
      (default {| status := 503; body := "Resource not available offline" |}
         (cache_match request cache),
       cache)
  end.

(** *** Overlapping handlers

    The worker starts a handler for every fetch event, and a handler of
    the dynamic strategy awaits neither its trimming nor its put: the
    cache operations of the handlers in flight interleave, each operation
    being atomic.  Handler [i] is the one of the [i]-th request that was
    fetched with an [ok] response.  It reads the keys once (in
    [limitCacheSize]), deletes the keys it chose from that reading, in any
    order, and puts its response, at any time. *)
Inductive Op : Type :=
  | ReadKeys (i : nat)
  | DeleteKey (i j : nat)
  | Put (i : nat).

(** The cache; for each handler that has read the keys, the keys it has
    still to delete; and the handlers whose put has landed. *)
Record Pool : Type := {
  entries : list Entry;
  trimming : gmap nat (list string);
  landed : gset nat
}.

(** One operation.  There is none ([None]) for a handler that does not
    exist, that would read the keys or put a second time, or that would
    delete before it has read the keys or beyond the keys it has left;
    [DeleteKey i j] deletes the [j]-th of the keys left to handler [i]. *)
Definition operate (requests : list Entry) (op : Op) (p : Pool) : option Pool :=
  match op with
  | ReadKeys i =>
      if bool_decide (i < length requests)%nat && bool_decide (trimming p !! i = None)
      then Some {| entries := entries p;
                   trimming := <[i := keysToDelete DYNAMIC_LIMIT (entries p)]> (trimming p);
                   landed := landed p |}
      else None
  | DeleteKey i j =>
      match trimming p !! i with
      | Some keys =>
          match keys !! j with
          | Some key =>
              Some {| entries := cache_delete key (entries p);
                      trimming := <[i := delete j keys]> (trimming p);
                      landed := landed p |}
          | None => None
          end
      | None => None
      end
  | Put i =>
      match (requests !! i : option Entry) with
      | Some request =>
          if bool_decide (i ∈ landed p) then None
          else Some {| entries := cache_put request.1 request.2 (entries p);
                       trimming := trimming p;
                       landed := {[i]} ∪ landed p |}
      | None => None
      end
  end.

Definition overlapped (requests : list Entry) (ops : list Op) (cache : list Entry)
  : option Pool :=
  foldl (λ p op, p ≫= operate requests op)
    (Some {| entries := cache; trimming := ∅; landed := ∅ |}) ops.

(** Every handler has read the keys, deleted all it chose, and put. *)
Definition settled (requests : list Entry) (p : Pool) : bool :=
  forallb (λ i, bool_decide (trimming p !! i = Some []) && bool_decide (i ∈ landed p))
    (seq 0 (length requests)).

(** The operations of a single handler in the order [trim_and_put] takes
    them: the keys it chose go oldest first. *)
Definition alone (schedule : Schedule) (request : string) (response : Response)
    (cache : list Entry) : list Op :=
  match schedule with
  | PutBeforeKeys =>
      [Put 0; ReadKeys 0] ++
      replicate (length (keysToDelete DYNAMIC_LIMIT (cache_put request response cache)))
        (DeleteKey 0 0)
  | PutAfterDeletes n =>
      let m := length (keysToDelete DYNAMIC_LIMIT cache) in
      [ReadKeys 0] ++ replicate (min n m) (DeleteKey 0 0) ++ [Put 0] ++
      replicate (m - n) (DeleteKey 0 0)
  end.

(** [k] handlers in flight, each reading the keys before the put of any
    of them has landed. *)
Definition reads_first (k : nat) : list Op :=
  (ReadKeys <$> seq 0 k) ++ (Put <$> seq 0 k).

(** A dynamic cache at its limit: fifty entries under distinct URLs. *)
Definition full_cache : list Entry :=
  (λ n : nat, ("/img/" +:+ pretty n +:+ ".png", {| status := 200; body := "" |}))
    <$> seq 0 DYNAMIC_LIMIT.

End ServiceWorker.

(** ** The rest of the service worker: routing, the strategies, the
    life cycle *)

Module Worker.

Import ServiceWorker.

Definition CACHE_NAME : string := "learnova-modern-v2.0.0".
Definition STATIC_CACHE : string := CACHE_NAME +:+ "-static".
Definition DYNAMIC_CACHE : string := CACHE_NAME +:+ "-dynamic".
Definition API_CACHE : string := CACHE_NAME +:+ "-api".

Definition STATIC_ASSETS : list string :=
  [ "/";
    "/index.html";
    "/client-modern.js";
    "/style.css";
    "/manifest.json";
    "https://cdn.jsdelivr.net/npm/chart.js@4.4.0/dist/chart.min.js";
    "https://cdn.socket.io/4.7.4/socket.io.min.js";
    "https://unpkg.com/three@0.157.0/build/three.min.js";
    "https://unpkg.com/@lottiefiles/lottie-player@latest/dist/lottie-player.js";
    "https://cdnjs.cloudflare.com/ajax/libs/gsap/3.12.2/gsap.min.js";
    "https://fonts.googleapis.com/css2?family=Inter:wght@300;400;500;600;700;800;900&display=swap" ].

Definition API_ENDPOINTS : list string :=
  [ "/api/health"; "/api/user/profile"; "/api/subjects";
    "/api/analytics/performance" ].

(** A request as the [fetch] listener reads it: its method, its URL, the
    protocol and the path of that URL as [new URL] parses them, and its
    mode. *)
Record Request : Type := {
  method : string;
  url : string;
  protocol : string;
  pathname : string;
  mode : string
}.

(** [s.startsWith(part)], [s.endsWith(part)], [s.includes(part)] *)
Definition startsWith (s part : string) : bool := String.prefix part s.

Definition endsWith (s part : string) : bool :=
  (String.length part <=? String.length s)%nat &&
  String.eqb
    (String.substring (String.length s - String.length part) (String.length part) s)
    part.

Definition includes (s part : string) : bool :=
  match String.index 0 part s with
  | Some _ => true
  | None => false
  end.

(** Which strategy the [fetch] listener hands the request to; with
    [NotHandled] it returns without [respondWith]. *)
Inductive Route : Type :=
  | NotHandled
  | ApiRoute
  | StaticRoute
  | NavigationRoute
  | DynamicRoute.

Definition route (request : Request) : Route :=
  if negb (String.eqb (method request) "GET") then NotHandled
  else if String.eqb (protocol request) "chrome-extension:" then NotHandled
  else if startsWith (pathname request) "/api/" then ApiRoute
  else if existsb (λ asset, endsWith (pathname request) asset) STATIC_ASSETS
  then StaticRoute
  else if String.eqb (mode request) "navigate" then NavigationRoute
  else DynamicRoute.

(** The cache storage: the caches by name.  [caches.open] creates the
    cache it does not find.  Apart from the put of a partial response,
    storage operations are taken to succeed.  No handler awaits its put:
    the storage that comes with the result of a handler is the one
    reached when the operations it started have settled, and a request
    that comes earlier meets the storage as it was before the put. *)
Definition cache_of (name : string) (caches : gmap string (list Entry))
  : list Entry :=
  default [] (caches !! name).

Definition opened (name : string) (caches : gmap string (list Entry))
  : gmap string (list Entry) :=
  match caches !! name with
  | Some _ => caches
  | None => <[name := []]> caches
  end.

(** [caches.open(name)] followed by [cache.put(request, response)], once
    the put has settled: until then the storage is as [opened] left it. *)
Definition stored (name request : string) (response : Response)
    (caches : gmap string (list Entry)) : gmap string (list Entry) :=
  <[name := cache_put request response (cache_of name caches)]> caches.

(** What a handler resolves to: a response of the network, a response out
    of a cache, or one it made itself with [new Response(body, { status,
    headers })] (of the headers only Content-Type is ever given). *)
Inductive Served : Type :=
  | FromNetwork (response : Response)
  | FromCache (response : Response)
  | Made (status : nat) (body : string) (contentType : option string).

(** The result of a handler: what it resolves to ([None] for
    [undefined]), the caches afterwards, and what it wrote with
    [console.error] (the labels; the error values are left out). *)
Record Handled : Type := {
  served : option Served;
  caches_after : gmap string (list Entry);
  console : list string
}.

Definition quote : string := String (ascii_of_nat 34) "".

(** [JSON.stringify({ success: false, error: 'Network request failed',
    offline: true })] *)
Definition offline_json : string :=
  "{" +:+ quote +:+ "success" +:+ quote +:+ ":false," +:+
  quote +:+ "error" +:+ quote +:+ ":" +:+
  quote +:+ "Network request failed" +:+ quote +:+ "," +:+
  quote +:+ "offline" +:+ quote +:+ ":true}".

Definition api_offline : Served :=
  Made 503 offline_json (Some "application/json").

(** [fetchAndCache(request, cacheName)] *)
Definition fetchAndCache (request : Request) (cacheName : string)
    (fetched : Fetch) (caches : gmap string (list Entry))
  : gmap string (list Entry) * list string :=
  match fetched with
  | Fetched response =>
      (if ok response then stored cacheName (url request) response caches
       else caches, [])
  | NetworkError => (caches, ["SW: Background fetch failed:"])
  end.

(** [handleAPIRequest(request)].  One fetch is made per call: in the
    background when the cache answers, in the foreground otherwise. *)
Definition handleAPIRequest (request : Request) (fetched : Fetch)
    (caches : gmap string (list Entry)) : Handled :=
  if existsb (λ endpoint, startsWith (pathname request) endpoint) API_ENDPOINTS then
    let caches := opened API_CACHE caches in
    match cache_match (url request) (cache_of API_CACHE caches) with
    | Some cachedResponse =>
        let background := fetchAndCache request API_CACHE fetched caches in
        {| served := Some (FromCache cachedResponse);
           caches_after := background.1; console := background.2 |}
    | None =>
        match fetched with
        | Fetched response =>
            {| served := Some (FromNetwork response);
               caches_after :=
                 if ok response then stored API_CACHE (url request) response caches
                 else caches;
               console := [] |}
        | NetworkError =>
            {| served := Some api_offline; caches_after := caches;
               console := ["SW: API request failed:"] |}
        end
    end
  else
    match fetched with
    | Fetched response =>
        {| served := Some (FromNetwork response); caches_after := caches;
           console := [] |}
    | NetworkError =>
        {| served := Some api_offline; caches_after := caches;
           console := ["SW: Network request failed:"] |}
    end.

Section Scope.

(** The origin the worker is served from: ['/index.html'] names the
    request for [origin] followed by that path. *)
Variable origin : string.

Definition resolve (asset : string) : string :=
  if startsWith asset "/" then origin +:+ asset else asset.

(** [handleStaticRequest(request)] *)
Definition handleStaticRequest (request : Request) (fetched : Fetch)
    (caches : gmap string (list Entry)) : Handled :=
  let caches := opened STATIC_CACHE caches in
  match cache_match (url request) (cache_of STATIC_CACHE caches) with
  | Some cachedResponse =>
      {| served := Some (FromCache cachedResponse); caches_after := caches;
         console := [] |}
  | None =>
      match fetched with
      | Fetched response =>
          {| served := Some (FromNetwork response);
             caches_after :=
               if ok response then stored STATIC_CACHE (url request) response caches
               else caches;
             console := [] |}
      | NetworkError =>
          {| served :=
               if includes (url request) ".html" || endsWith (url request) "/" then
                 FromCache <$>
                   cache_match (resolve "/index.html") (cache_of STATIC_CACHE caches)
               else Some (Made 503 "Asset not available offline" None);
             caches_after := caches;
             console := ["SW: Static request failed:"] |}
      end
  end.

(** [handleNavigationRequest(request)] *)
Definition handleNavigationRequest (request : Request) (fetched : Fetch)
    (caches : gmap string (list Entry)) : Handled :=
  match fetched with
  | Fetched response =>
      {| served := Some (FromNetwork response); caches_after := caches;
         console := [] |}
  | NetworkError =>
      let caches := opened STATIC_CACHE caches in
      {| served :=
           Some (match cache_match (resolve "/index.html")
                         (cache_of STATIC_CACHE caches) with
                 | Some cachedResponse => FromCache cachedResponse
                 | None => Made 503 "App not available offline" (Some "text/html")
                 end);
         caches_after := caches;
         console := ["SW: Navigation request failed:"] |}
  end.




End Scope.

(** The [activate] listener deletes every cache whose name is not one of
    the three current names. *)
Definition current (cacheName : string) : bool :=
  String.eqb cacheName STATIC_CACHE || String.eqb cacheName DYNAMIC_CACHE ||
  String.eqb cacheName API_CACHE.

Definition activate (caches : gmap string (list Entry)) : gmap string (list Entry) :=
  filter (λ kv : string * list Entry, current kv.1 = true) caches.

(** [limitCacheSize(cacheName, maxItems)] on the storage *)
Definition limit_in (cacheName : string) (maxItems : nat)
    (caches : gmap string (list Entry)) : gmap string (list Entry) :=
  let caches := opened cacheName caches in
  <[cacheName := limitCacheSize maxItems (cache_of cacheName caches)]> caches.

(** [performCacheCleanup()]: the two trimmings, one awaited after the
    other. *)
Definition performCacheCleanup (caches : gmap string (list Entry))
  : gmap string (list Entry) :=
  limit_in API_CACHE 20 (limit_in DYNAMIC_CACHE 30 caches).

End Worker.

(** ** The HTTP gate: [authenticateToken] *)

Module Http.

Import Relay.

#[local] Notation "x <- m ;; k" := (bind m (λ x, k))
  (at level 100, m at next level, right associativity).
#[local] Notation "m ;;; k" := (bind m (λ _, k))
  (at level 100, right associativity).

(** [s.split(' ')]: the pieces between the spaces, at least one. *)
Fixpoint split_space (s : string) : list string :=
  match s with
  | EmptyString => [""]
  | String c rest =>
      if Ascii.eqb c " "%char then "" :: split_space rest
      else match split_space rest with
           | piece :: pieces => String c piece :: pieces
           | [] => [String c ""]
           end
  end.

(** [authHeader && authHeader.split(' ')[1]], for the header as Node hands
    it over: a string, or [undefined] when the request has none. *)
Definition bearer (authHeader : option string) : JSValue :=
  match authHeader with
  | None => JUndefined
  | Some EmptyString => JStr ""
  | Some header =>
      match split_space header !! 1 with
      | Some token => JStr token
      | None => JUndefined
      end
  end.

(** A string without a space in it. *)
Fixpoint spaceless (s : string) : bool :=
  match s with
  | EmptyString => true
  | String c rest => negb (Ascii.eqb c " "%char) && spaceless rest
  end.

(** What the middleware does with the request: answer it, or pass it on
    with [req.user] set. *)
Inductive Outcome : Type :=
  | Respond (status : nat) (error : string)
  | Next (user : Decoded).

Section Middleware.

Variable clock : nat → Z.
Variable jwt_verify : string → Completion Decoded.

(** [authenticateToken(req, res, next)].  The update of the last-active
    time is awaited; [stored] says whether the store fulfilled it, its
    rejection going to [() => {}]. *)
Definition authenticateToken (authHeader : option string) (stored : bool)
  : M Outcome :=
  try_catch
    (let token := bearer authHeader in
     if negb (truthy token) then ret (Respond 401 "Access token required")
     else
       decoded <- lift (verify jwt_verify token);;
       model <- read User;;
       (if model : bool then
          lastActive <- new_Date clock;;
          let query := {| db_id := d_userId decoded; db_isOnline := true;
                          db_lastActive := lastActive |} in
          effect (Query query);;;
          if stored then
            update (with_db (alter (λ _, (db_isOnline query, db_lastActive query))
                               (db_id query)))
          else ret tt
        else ret tt);;;
       ret (Next decoded))
    (λ error, ret (Respond 403 "Invalid or expired token")).

End Middleware.

End Http.

(** ** The socket service of the browser client *)

Module Client.

(** [ModernSocketService], as far as sending goes: whether the socket is
    there and connected, the queue of messages kept back, and the calls of
    [socket.emit] made so far. *)
Record SocketService : Type := {
  connected : bool;
  messageQueue : list (string * JSValue);
  emitted : list (string * JSValue)
}.

(** [emit(event, data)] *)
Definition emit (event : string) (data : JSValue) (s : SocketService)
  : SocketService :=
  if connected s then
    {| connected := connected s; messageQueue := messageQueue s;
       emitted := emitted s ++ [(event, data)] |}
  else
    {| connected := connected s;
       messageQueue := messageQueue s ++ [(event, data)];
       emitted := emitted s |}.

(** The loop of [processMessageQueue]: [shift] one message and emit it,
    until the queue is empty. *)
Fixpoint drain (queue emitted : list (string * JSValue))
  : list (string * JSValue) :=
  match queue with
  | [] => emitted
  | message :: rest => drain rest (emitted ++ [message])
  end.

(** [processMessageQueue()] *)
Definition processMessageQueue (s : SocketService) : SocketService :=
  {| connected := connected s; messageQueue := [];
     emitted := drain (messageQueue s) (emitted s) |}.

(** The [connect] listener, as far as sending goes. *)
Definition on_connect (s : SocketService) : SocketService :=
  processMessageQueue
    {| connected := true; messageQueue := messageQueue s; emitted := emitted s |}.

(** The [disconnect] listener, as far as sending goes. *)
Definition on_disconnect (s : SocketService) : SocketService :=
  {| connected := false; messageQueue := messageQueue s; emitted := emitted s |}.

(** [joinStudyGroup], [joinLiveSession], [sendCollaborationUpdate],
    [sendPracticeUpdate], [startTyping] *)
Definition joinStudyGroup (groupId : JSValue) := emit "join-study-group" groupId.
Definition joinLiveSession (sessionId : JSValue) := emit "join-live-session" sessionId.
Definition sendCollaborationUpdate (data : JSValue) := emit "collaboration-update" data.
Definition sendPracticeUpdate (data : JSValue) := emit "practice-update" data.
Definition startTyping (roomId : JSValue) := emit "typing" (JObj [("roomId", roomId)]).

End Client.

Import Relay.

(** ** A concrete deployment, for the examples *)

Module Scenario.

(** A clock that advances by a millisecond at every reading, and one that
    does so for the first three readings and gives all the later ones
    thirty seconds on, within one millisecond. *)
Definition ticking (n : nat) : Z := 1730505600000 + Z.of_nat n.
Definition burst (n : nat) : Z :=
  if (n <? 3)%nat then 1730505600000 + Z.of_nat n else 1730505630000.

(** Two tokens verify; everything else has a bad signature. *)
Definition jwt_verify (token : string) : Completion Decoded :=
  if String.eqb token "token-u1" then
    Normal {| d_userId := "u1"; d_email := "u1@learnova.test" |}
  else if String.eqb token "token-u2" then
    Normal {| d_userId := "u2"; d_email := "u2@learnova.test" |}
  else Throw (JsonWebTokenError "invalid signature").

Definition auth (token : string) : list (string * JSValue) :=
  [("token", JStr token)].

Definition start : World := init true ∅.

(** [u1] on socket [s1]. *)
Definition one_user (clock : nat → Z) : World :=
  (connect clock jwt_verify "s1" (auth "token-u1") start).2.

(** [u1] on socket [s1] and [u2] on socket [s2]. *)
Definition two_users (clock : nat → Z) : World :=
  (connect clock jwt_verify "s2" (auth "token-u2") (one_user clock)).2.

(** [u1] on the sockets [s1] and [s3]: a second tab, or a reconnect
    before the first transport has timed out. *)
Definition two_tabs (clock : nat → Z) : World :=
  (connect clock jwt_verify "s3" (auth "token-u1") (one_user clock)).2.

(** Both users, [u2] having joined the group [g1]. *)
Definition u2_in_g1 (clock : nat → Z) : World :=
  (receive clock "s2" (join_study_group (JStr "g1")) (two_users clock)).2.

(** Both users, [u2] having emitted [join-study-group] with no argument. *)
Definition u2_in_unnamed (clock : nat → Z) : World :=
  (receive clock "s2" (join_study_group JUndefined) (two_users clock)).2.

(** Both users, [u2] having joined the group whose id is "user-u2". *)
Definition u2_in_namesake (clock : nat → Z) : World :=
  (receive clock "s2" (join_study_group (JStr "user-u2")) (two_users clock)).2.

(** Two tabs of [u1], the first one closed. *)
Definition first_tab_closed (clock : nat → Z) : World :=
  (disconnect clock "s1" "transport close" (two_tabs clock)).2.

(** [u1] connected and gone again. *)
Definition u1_gone (clock : nat → Z) : World :=
  (disconnect clock "s1" "transport close" (one_user clock)).2.

Definition socket1 : Socket :=
  {| id := "s1"; userId := "u1"; userEmail := "u1@learnova.test" |}.

Definition socket3 : Socket :=
  {| id := "s3"; userId := "u1"; userEmail := "u1@learnova.test" |}.

(** A group id that cannot be converted to a string: the object
    [{ toString: 1 }]. *)
Definition unprintable : JSValue := JObj [("toString", JNum "1")].

End Scenario.

(** ** Sample requests, caches and networks, for the examples *)

Module Samples.

Import ServiceWorker Worker Client.

Definition origin : string := "https://learnova.test".

Definition profile_request : Request :=
  {| method := "GET"; url := origin +:+ "/api/user/profile"; protocol := "https:";
     pathname := "/api/user/profile"; mode := "cors" |}.

Definition root_navigation : Request :=
  {| method := "GET"; url := origin +:+ "/"; protocol := "https:";
     pathname := "/"; mode := "navigate" |}.

Definition about_navigation : Request :=
  {| method := "GET"; url := origin +:+ "/about"; protocol := "https:";
     pathname := "/about"; mode := "navigate" |}.

Definition fresh : Response := {| status := 200; body := "fresh" |}.
Definition stale : Response := {| status := 200; body := "stale" |}.
Definition broken : Response := {| status := 500; body := "" |}.

(** A partial response, as a range request gets it. *)
Definition ranged : Response := {| status := 206; body := "bytes 0-99" |}.

(** Three images fetched while the dynamic cache is full. *)
Definition in_flight : list Entry :=
  [("/img/a.png", fresh); ("/img/b.png", fresh); ("/img/c.png", fresh)].

(** The API cache holding an older answer to the profile request. *)
Definition api_cached : gmap string (list Entry) :=
  {[ API_CACHE := [(url profile_request, stale)] ]}.

(** A dynamic cache of fifty entries and nothing else. *)
Definition crowded : gmap string (list Entry) :=
  {[ DYNAMIC_CACHE := full_cache ]}.



Definition offline_service : SocketService :=
  {| connected := false; messageQueue := []; emitted := [] |}.

Definition note : JSValue :=
  JObj [("groupId", JStr "g1"); ("type", JStr "note"); ("content", JStr "hello")].

Definition progress_report : JSValue :=
  JObj [("sessionId", JStr "live1"); ("progress", JNum "40"); ("accuracy", JNum "90")].

End Samples.

(** * Properties of the relay *)

Ltac exec :=
  cbv beta delta
    [step connect receive disconnect settle dispatch on_connection
     on_join_study_group on_collaboration_update on_practice_update on_typing
     on_heartbeat on_disconnect try_catch bind ret lift update read effect
     socket_join socket_to_emit socket_broadcast_emit socket_emit console_log
     console_error new_Date] in *;
  cbn [fst snd activeUsers sockets rooms dates trace pending db User
       with_activeUsers with_sockets with_rooms with_dates with_trace
       with_pending with_db id userId userEmail] in *.

Lemma length_append (s1 s2 : string) :
  String.length (s1 +:+ s2) = String.length s1 + String.length s2.
Proof.
  induction s1 as [|a s1 IH]; [done|].
  change (S (String.length (s1 +:+ s2)) = S (String.length s1 + String.length s2)).
  by rewrite IH.
Qed.

Lemma prefix_append (s t : string) : String.prefix s (s +:+ t) = true.
Proof.
  induction s as [|a s IH]; [by destruct t|].
  change (String a s +:+ t) with (String a (s +:+ t)). cbn.
  by destruct (Ascii.ascii_dec a a).
Qed.

Lemma group_room_not_engine_id (g : string) : engine_id ("group-" +:+ g) = false.
Proof. unfold engine_id. by rewrite prefix_append. Qed.

Lemma user_room_not_engine_id (u : string) : engine_id ("user-" +:+ u) = false.
Proof. unfold engine_id. rewrite (prefix_append "user-"). apply andb_false_r. Qed.

Lemma lookup_adapter_add (sid room r : string) (rs : gmap string (gset string)) :
  adapter_add sid room rs !! r =
    if decide (room = r) then Some ({[sid]} ∪ default ∅ (rs !! room)) else rs !! r.
Proof. unfold adapter_add. by rewrite lookup_insert. Qed.

Lemma lookup_adapter_delAll (sid r : string) (rs : gmap string (gset string)) :
  adapter_delAll sid rs !! r =
    rs !! r ≫= λ s, if decide (s ∖ {[sid]} = ∅) then None else Some (s ∖ {[sid]}).
Proof. unfold adapter_delAll. by rewrite lookup_omap. Qed.

Lemma wf_net_empty : wf_net ∅ ∅.
Proof. split; intros ? ? H; by rewrite lookup_empty in H. Qed.

Lemma wf_net_add ss rs sid socket room :
  wf_net ss rs → ss !! sid = Some socket → engine_id room = false →
  wf_net ss (adapter_add sid room rs).
Proof.
  intros [Hs Hr] Hsid Hroom. split.
  - intros s sk Hsk. destruct (Hs _ _ Hsk) as (? & He & Hown).
    repeat split; [done..|].
    rewrite lookup_adapter_add. case_decide; [congruence | done].
  - intros r ms. rewrite lookup_adapter_add. case_decide as Heq.
    + intros [= <-]. subst r. split; [set_solver|]. split; [|by right].
      apply union_subseteq. split.
      * apply singleton_subseteq_l, elem_of_dom. eauto.
      * destruct (rs !! room) as [S0|] eqn:HS0; cbn; [|set_solver].
        by destruct (Hr _ _ HS0) as (_ & ? & _).
    + apply Hr.
Qed.

Lemma wf_net_fresh_room ss rs sid :
  wf_net ss rs → ss !! sid = None → engine_id sid = true → rs !! sid = None.
Proof.
  intros [_ Hr] Hsid He. destruct (rs !! sid) as [ms|] eqn:HS; [|done].
  destruct (Hr _ _ HS) as (_ & _ & [[? Hx]|Hx]); congruence.
Qed.

Lemma wf_net_admit ss rs sid socket :
  wf_net ss rs → ss !! sid = None → engine_id sid = true → id socket = sid →
  wf_net (<[sid := socket]> ss) (adapter_add sid sid rs).
Proof.
  intros Hwf Hsid He Hid.
  pose proof (wf_net_fresh_room _ _ _ Hwf Hsid He) as Hnone.
  destruct Hwf as [Hs Hr]. split.
  - intros s sk. rewrite lookup_insert. case_decide as Heq.
    + intros [= <-]. subst s. repeat split; [done..|].
      rewrite lookup_adapter_add, decide_True by done.
      rewrite Hnone. cbn. f_equal. set_solver.
    + intros Hsk. destruct (Hs _ _ Hsk) as (? & ? & ?). repeat split; [done..|].
      by rewrite lookup_adapter_add, decide_False.
  - intros r ms. rewrite lookup_adapter_add. case_decide as Heq.
    + intros [= <-]. subst r. rewrite Hnone. cbn.
      split; [set_solver|]. split; [|left; rewrite lookup_insert_eq; eauto].
      rewrite dom_insert_L. set_solver.
    + intros HS. destruct (Hr _ _ HS) as (? & ? & Hor). split; [done|].
      split; [rewrite dom_insert_L; set_solver|].
      destruct Hor as [Hin|?]; [left|by right].
      by rewrite lookup_insert_ne.
Qed.

Lemma wf_net_close ss rs sid :
  wf_net ss rs → wf_net (delete sid ss) (adapter_delAll sid rs).
Proof.
  intros [Hs Hr]. split.
  - intros s sk. rewrite lookup_delete. case_decide as Heq; [done|].
    intros Hsk. destruct (Hs _ _ Hsk) as (? & ? & Hown). repeat split; [done..|].
    rewrite lookup_adapter_delAll, Hown. cbn.
    assert (({[s]} : gset string) ∖ {[sid]} = {[s]}) as -> by set_solver.
    rewrite decide_False; [done | set_solver].
  - intros r ms. rewrite lookup_adapter_delAll.
    destruct (rs !! r) as [S0|] eqn:HS0; cbn; [|done].
    case_decide as Hemp; [done|]. intros [= <-].
    destruct (Hr _ _ HS0) as (_ & Hsub & Hor). split; [done|].
    split; [rewrite dom_delete_L; set_solver|].
    destruct Hor as [[sk Hsk]|?]; [|by right]. left.
    destruct (decide (sid = r)) as [->|Hne].
    + destruct (Hs _ _ Hsk) as (_ & _ & Hown).
      rewrite Hown in HS0. injection HS0 as <-. set_solver.
    + rewrite lookup_delete_ne by done. eauto.
Qed.

Section RelayInvariant.

Context (clock : nat → Z) (jwt_verify : string → Completion Decoded).

Lemma wf_seen_mono (w w' : World) :
  wf_seen clock w → (dates w ≤ dates w')%nat →
  (∀ u e, activeUsers w' !! u = Some e →
     activeUsers w !! u = Some e ∨ ∃ k, k < dates w' ∧ lastSeen e = clock k) →
  wf_seen clock w'.
Proof.
  intros Hseen Hle Hnew u e Hu.
  destruct (Hnew _ _ Hu) as [Hold|?]; [|done].
  destruct (Hseen _ _ Hold) as (k & ? & ?). exists k. split; [lia | done].
Qed.

Ltac seen_tac :=
  eapply wf_seen_mono; [eassumption | cbn; lia |];
  cbn; intros ? ?; rewrite ?lookup_insert, ?lookup_delete;
  repeat case_decide; intros; simplify_eq;
  first [ solve [eauto]
        | right; cbn; eexists; split; [|reflexivity]; lia ].

Lemma wf_init user_model users : wf clock (init user_model users).
Proof.
  split; [apply wf_net_empty|]. intros u e H. cbn in H.
  by rewrite lookup_empty in H.
Qed.

Lemma wf_dispatch (w : World) (sid : string) (socket : Socket) (ev : InboundEvent) :
  wf clock w → sockets w !! sid = Some socket →
  wf clock (dispatch clock socket ev w).2.
Proof.
  intros [Hnet Hseen] Hsid.
  assert (id socket = sid) as Hid by (by destruct Hnet as [Hs _]; destruct (Hs _ _ Hsid)).
  destruct ev as [g|data|data|data|]; exec.
  - destruct (ToString g) as [room|e]; cbn.
    + split; [cbn; subst; eauto using wf_net_add, group_room_not_engine_id | seen_tac].
    + split; [done | seen_tac].
  - destruct (RequireObjectCoercible data); cbn; [|split; [done | seen_tac]].
    destruct (ToString (Get data "groupId")); cbn; split; (done || seen_tac).
  - destruct (RequireObjectCoercible data); cbn; [|split; [done | seen_tac]].
    destruct (ToString (Get data "sessionId")); cbn; split; (done || seen_tac).
  - destruct (RequireObjectCoercible data); cbn; split; (done || seen_tac).
  - destruct (activeUsers w !! userId socket) as [e|] eqn:He; cbn;
      split; (done || seen_tac).
Qed.

(** The three outcomes of the middleware. *)
Lemma gate_cases (sid : string) (auth : list (string * JSValue)) (w : World) :
  gate jwt_verify sid auth w =
    if truthy (Get (JObj auth) "token") then
      match verify jwt_verify (Get (JObj auth) "token") with
      | Normal d =>
          (Normal (Admit {| id := sid; userId := d_userId d;
                            userEmail := d_email d |}), w)
      | Throw e =>
          (Normal (Refuse "Authentication error: Invalid token"),
           with_trace (λ t, (t ++ [ConsoleError "Socket Auth Error:" e])%list) w)
      end
    else (Normal (Refuse "Authentication error: No token provided"), w).
Proof.
  unfold gate, try_catch, bind, lift, ret, console_error, effect, update.
  destruct (truthy (Get (JObj auth) "token")); [|done].
  cbn [negb]. by destruct (verify jwt_verify (Get (JObj auth) "token")).
Qed.

Lemma wf_connect (w : World) (sid : string) (auth : list (string * JSValue)) :
  wf clock w → sockets w !! sid = None → engine_id sid = true →
  wf clock (connect clock jwt_verify sid auth w).2.
Proof.
  intros [Hnet Hseen] Hsid He. unfold connect, bind. rewrite gate_cases.
  destruct (truthy (Get (JObj auth) "token"));
    [|exec; split; [done | seen_tac]].
  destruct (verify jwt_verify (Get (JObj auth) "token")) as [d|e];
    exec; [|split; [done | seen_tac]].
  split; [|seen_tac]. cbn.
  eapply wf_net_add; [by apply wf_net_admit | apply lookup_insert_eq
                     | apply user_room_not_engine_id].
Qed.

Lemma wf_disconnect (w : World) (sid reason : string) :
  wf clock w → wf clock (disconnect clock sid reason w).2.
Proof.
  intros [Hnet Hseen]. exec.
  destruct (sockets w !! sid) as [socket|]; cbn; [|done].
  destruct (User w); cbn; (split; [by apply wf_net_close | seen_tac]).
Qed.

Lemma wf_settle (w : World) (n : nat) (ok : bool) :
  wf clock w → wf clock (settle n ok w).2.
Proof.
  intros [Hnet Hseen]. exec.
  destruct (pending w !! n); cbn; [|done].
  destruct ok; cbn; (split; [done | seen_tac]).
Qed.

Lemma reachable_wf (w : World) : reachable clock jwt_verify w → wf clock w.
Proof.
  induction 1 as [| w sid auth _ IH Hsid He | w sid ev _ IH | w sid reason _ IH
                 | w n ok _ IH].
  - apply wf_init.
  - by apply wf_connect.
  - unfold receive. destruct (sockets w !! sid) as [socket|] eqn:Hsid; [|done].
    by eapply wf_dispatch.
  - by apply wf_disconnect.
  - by apply wf_settle.
Qed.

(** One half of the presence invariant does hold: an entry is never left
    behind without a connection of its identity. *)
Lemma reachable_backed (w : World) : reachable clock jwt_verify w → backed w.
Proof.
  induction 1 as [| w sid auth _ IH Hsid He | w sid ev _ IH | w sid reason _ IH
                 | w n ok _ IH]; intros u e.
  - cbn. by rewrite lookup_empty.
  - unfold connect, bind. rewrite gate_cases.
    destruct (truthy (Get (JObj auth) "token")); [|exec; apply IH].
    destruct (verify jwt_verify (Get (JObj auth) "token")) as [d|err];
      exec; [|apply IH].
    rewrite lookup_insert. case_decide as Hu.
    + intros _. eexists sid, _. by rewrite lookup_insert_eq.
    + intros (sid' & socket & Hsock & Hid)%IH. exists sid', socket.
      split; [|done]. rewrite lookup_insert_ne; [done | congruence].
  - unfold receive. destruct (sockets w !! sid) as [socket|] eqn:Hsid; [|apply IH].
    destruct ev as [g|data|data|data|]; exec.
    + destruct (ToString g); apply IH.
    + destruct (RequireObjectCoercible data); [|apply IH].
      destruct (ToString (Get data "groupId")); apply IH.
    + destruct (RequireObjectCoercible data); [|apply IH].
      destruct (ToString (Get data "sessionId")); apply IH.
    + destruct (RequireObjectCoercible data); apply IH.
    + destruct (activeUsers w !! userId socket) as [old|] eqn:Hold; cbn;
        [|apply IH].
      rewrite lookup_insert. case_decide as Hu; [|apply IH].
      intros _. subst u. by apply (IH _ old).
  - unfold disconnect. destruct (sockets w !! sid) as [socket|] eqn:Hsid;
      [|apply IH].
    assert (activeUsers (on_disconnect clock socket reason
              (with_sockets (delete sid) (with_rooms (adapter_delAll sid) w))).2
            = delete (userId socket) (activeUsers w)) as Hreg
      by (exec; by destruct (User w)).
    assert (sockets (on_disconnect clock socket reason
              (with_sockets (delete sid) (with_rooms (adapter_delAll sid) w))).2
            = delete sid (sockets w)) as Hnsp
      by (exec; by destruct (User w)).
    unfold bind, update. cbn [fst snd]. rewrite Hreg, Hnsp.
    rewrite lookup_delete. case_decide as Hu; [done|].
    intros (sid' & socket' & Hsock & Hid)%IH. exists sid', socket'.
    split; [|done]. rewrite lookup_delete_ne; [done | congruence].
  - unfold settle. destruct (pending w !! n); [|apply IH].
    exec. destruct ok; apply IH.
Qed.

End RelayInvariant.

Section RelayProperties.

Context (clock : nat → Z) (jwt_verify : string → Completion Decoded).

Lemma recipients_of_room (w : World) (sid : string) (socket : Socket) (room : string) :
  wf_net (sockets w) (rooms w) → sockets w !! sid = Some socket →
  recipients w [JStr room] [JStr sid] = members room w ∖ {[sid]}.
Proof.
  intros [Hs Hr] Hsid. destruct (Hs _ _ Hsid) as (_ & _ & Hown).
  unfold recipients, members. cbn. unfold members. rewrite Hown. cbn.
  assert (default ∅ (rooms w !! room) ⊆ dom (sockets w)) as Hsub.
  { destruct (rooms w !! room) as [ms|] eqn:HS; cbn; [|set_solver].
    by destruct (Hr _ _ HS) as (_ & ? & _). }
  set_solver.
Qed.

Lemma members_join (w : World) (sid room r : string) :
  members r (with_rooms (adapter_add sid room) w) =
    if decide (room = r) then {[sid]} ∪ members room w else members r w.
Proof.
  unfold members. cbn. rewrite lookup_adapter_add. by case_decide.
Qed.

(** What a join does, for a group id that converts to a string. *)
Lemma join_study_group_spec (w : World) (sid : string) (socket : Socket)
    (groupId : JSValue) (group : string) :
  wf clock w → sockets w !! sid = Some socket →
  ToString groupId = Normal group →
  receive clock sid (join_study_group groupId) w =
    (Normal tt,
     with_trace (λ t, (t ++
         [Emit (members ("group-" +:+ group) w ∖ {[sid]})
               (user_joined_group (userId socket) groupId (clock (dates w)));
          ConsoleLog ("User " +:+ userId socket +:+ " joined study group " +:+ group)])%list)
       (with_dates S (with_rooms (adapter_add sid ("group-" +:+ group)) w))).
Proof.
  intros [Hnet _] Hsid Hstr. unfold receive. rewrite Hsid.
  assert (id socket = sid) as Hid
    by (by destruct Hnet as [Hs _]; destruct (Hs _ _ Hsid)).
  exec. rewrite Hstr. cbn. rewrite Hid.
  pose proof (wf_net_add _ _ _ _ ("group-" +:+ group) Hnet Hsid
                (group_room_not_engine_id group)) as Hnet'.
  rewrite (recipients_of_room
             (with_dates S (with_rooms (adapter_add sid ("group-" +:+ group)) w))
             sid socket) by done.
  unfold members at 1. cbn. rewrite lookup_adapter_add, decide_True by done. cbn.
  fold (members ("group-" +:+ group) w).
  assert (({[sid]} ∪ members ("group-" +:+ group) w) ∖ {[sid]}
          = members ("group-" +:+ group) w ∖ {[sid]}) as -> by set_solver.
  unfold with_trace. cbn. by rewrite <- app_assoc.
Qed.

(** C1.  When an admitted connection emits [join-study-group] for a group,
    its socket is afterwards a member of the group's room, and one
    [user-joined-group] event carrying the sender's identity, the group id
    and the server time is sent to exactly the other sockets that were
    members of that room before: never to the sender. *)
Theorem join_room_adds_sender_and_notifies_others
    (w : World) (sid : string) (socket : Socket) (groupId : JSValue) (group : string) :
  reachable clock jwt_verify w →
  sockets w !! sid = Some socket →
  ToString groupId = Normal group →
  let w' := (receive clock sid (join_study_group groupId) w).2 in
  sid ∈ members ("group-" +:+ group) w' ∧
  (∃ receivers ev,
     new_effects w w' =
       [Emit receivers ev;
        ConsoleLog ("User " +:+ userId socket +:+ " joined study group " +:+ group)] ∧
     ev = user_joined_group (userId socket) groupId (clock (dates w)) ∧
     (sid ∉ receivers) ∧
     (∀ other, other ≠ sid → other ∈ members ("group-" +:+ group) w →
               other ∈ receivers)).
Proof.
  intros Hreach Hsid Hstr w'. subst w'.
  rewrite (join_study_group_spec w sid socket groupId group)
    by eauto using reachable_wf.
  cbn [snd]. split.
  - unfold members. cbn. rewrite lookup_adapter_add, decide_True by done.
    cbn. set_solver.
  - eexists _, _. split; [|split; [reflexivity|]].
    + unfold new_effects. cbn. by rewrite drop_app_length.
    + set_solver.
Qed.

Lemma new_effects_app (w w' : World) (added : list Effect) :
  trace w' = (trace w ++ added)%list → new_effects w w' = added.
Proof. unfold new_effects. intros ->. by rewrite drop_app_length. Qed.

Lemma new_effects_none (w w' : World) :
  trace w' = trace w → new_effects w w' = [].
Proof. unfold new_effects. intros ->. by rewrite drop_all. Qed.

(** The namespace broadcast of a socket that has just left it reaches all
    the sockets that remain. *)
Lemma recipients_after_close (w w1 : World) (sid : string) (socket : Socket) :
  wf_net (sockets w) (rooms w) →
  sockets w !! sid = Some socket →
  sockets w1 = delete sid (sockets w) →
  rooms w1 = adapter_delAll sid (rooms w) →
  recipients w1 [] [JStr sid] = dom (sockets w) ∖ {[sid]}.
Proof.
  intros [Hs _] Hsid Hss Hrs. destruct (Hs _ _ Hsid) as (_ & _ & Hown).
  unfold recipients. cbn. unfold members.
  rewrite Hss, Hrs, dom_delete_L, lookup_adapter_delAll, Hown. cbn.
  rewrite decide_True by set_solver. cbn. set_solver.
Qed.

Lemma not_member_after_delAll (rs : gmap string (gset string)) (sid room : string) :
  sid ∉ default ∅ (adapter_delAll sid rs !! room).
Proof.
  rewrite lookup_adapter_delAll. destruct (rs !! room) as [ms|]; cbn; [|set_solver].
  case_decide; cbn; set_solver.
Qed.

Lemma disconnect_spec (w : World) (sid reason : string) (socket : Socket) :
  wf clock w → sockets w !! sid = Some socket →
  let persisted := if User w then 1 else 0 in
  let issued :=
    if User w then
      [{| db_id := userId socket; db_isOnline := false;
          db_lastActive := clock (dates w) |}]
    else [] in
  disconnect clock sid reason w =
    (Normal tt,
     {| activeUsers := delete (userId socket) (activeUsers w);
        sockets := delete sid (sockets w);
        rooms := adapter_delAll sid (rooms w);
        dates := S (persisted + dates w);
        trace := trace w ++
          [ConsoleLog ("❌ User " +:+ userId socket +:+ " disconnected: " +:+ reason)] ++
          (Query <$> issued) ++
          [Emit (dom (sockets w) ∖ {[sid]})
                (user_offline (userId socket) (clock (persisted + dates w)))];
        pending := pending w ++ issued;
        db := db w;
        User := User w |}).
Proof.
  intros [Hnet _] Hsid. unfold disconnect. rewrite Hsid.
  assert (id socket = sid) as Hid
    by (by destruct Hnet as [Hs _]; destruct (Hs _ _ Hsid)).
  exec. rewrite Hid.
  destruct (User w) eqn:HU; cbn;
    erewrite recipients_after_close by (eassumption || reflexivity);
    unfold with_trace; cbn; rewrite <- ?app_assoc, ?app_nil_r, ?HU; reflexivity.
Qed.

(** A rejected query changes nothing but the queue of pending queries. *)
Lemma settle_rejected (w : World) (n : nat) :
  (settle n false w).1 = Normal tt ∧
  new_effects w (settle n false w).2 = [] ∧
  db (settle n false w).2 = db w.
Proof.
  unfold settle. destruct (pending w !! n) as [u|] eqn:Hn; cbn;
    by rewrite new_effects_none.
Qed.

(** C2, as the code has it.  On every disconnect of an admitted
    connection, whatever the reason: the socket has left every room and
    the namespace, the registry entry of its identity is removed, the
    last-seen update is issued to the store when the user model exists,
    and then one [user-offline] event goes to all the connections that
    remain (not to a room).  The update settles later; when it is rejected
    nothing happens at all: the rejection is neither logged nor sent to
    anyone. *)
Theorem disconnect_tears_down_and_swallows_silently
    (w : World) (sid reason : string) (socket : Socket) :
  reachable clock jwt_verify w →
  sockets w !! sid = Some socket →
  let w' := (disconnect clock sid reason w).2 in
  (∀ room, sid ∉ members room w') ∧
  sockets w' !! sid = None ∧
  activeUsers w' !! userId socket = None ∧
  (∃ timestamp issued,
     new_effects w w' =
       ([ConsoleLog ("❌ User " +:+ userId socket +:+ " disconnected: " +:+ reason)] ++
        (Query <$> issued) ++
        [Emit (dom (sockets w) ∖ {[sid]}) (user_offline (userId socket) timestamp)])%list ∧
     pending w' = (pending w ++ issued)%list ∧
     issued =
       if User w then
         [{| db_id := userId socket; db_isOnline := false;
             db_lastActive := clock (dates w) |}]
       else []) ∧
  (∀ n, (settle n false w').1 = Normal tt ∧
        new_effects w' (settle n false w').2 = [] ∧
        db (settle n false w').2 = db w').
Proof.
  intros Hreach Hsid w'. subst w'.
  rewrite (disconnect_spec w sid reason socket) by eauto using reachable_wf.
  cbn [snd]. split; [|split; [|split; [|split]]].
  - intros room. unfold members. cbn. apply not_member_after_delAll.
  - cbn. apply lookup_delete_eq.
  - cbn. apply lookup_delete_eq.
  - eexists _, _. split; [by apply new_effects_app|]. by split.
  - intros n. apply settle_rejected.
Qed.

(** C4.  A handshake whose token is missing (falsy) is refused with the
    no-token error; one whose token is there but does not verify is
    refused with the invalid-token error, the verification error being
    logged.  Either way nothing else happens: the registry, the namespace
    and the rooms are as before, and no listener ever runs for the refused
    socket. *)
Theorem gate_refuses_without_valid_token
    (w : World) (sid : string) (auth : list (string * JSValue)) :
  let token := Get (JObj auth) "token" in
  let w' := (connect clock jwt_verify sid auth w).2 in
  truthy token = false ∨ (∃ e, verify jwt_verify token = Throw e) →
  (truthy token = false →
     new_effects w w' =
       [ConnectError sid "Authentication error: No token provided"]) ∧
  (truthy token = true → ∀ e, verify jwt_verify token = Throw e →
     new_effects w w' =
       [ConsoleError "Socket Auth Error:" e;
        ConnectError sid "Authentication error: Invalid token"]) ∧
  activeUsers w' = activeUsers w ∧
  sockets w' = sockets w ∧
  rooms w' = rooms w ∧
  (sockets w !! sid = None → ∀ ev, receive clock sid ev w' = (Normal tt, w')).
Proof.
  intros token w' Hbad. subst token w'. unfold connect, bind.
  rewrite gate_cases.
  destruct (truthy (Get (JObj auth) "token")) eqn:Htruthy.
  - destruct Hbad as [?|[e He]]; [done|]. rewrite He. exec.
    repeat split; try done.
    + intros _ e' [= <-]. apply new_effects_app. cbn. by rewrite <- app_assoc.
    + intros Hnone ev. unfold receive. cbn. by rewrite Hnone.
  - exec. repeat split; try done.
    + intros _. by apply new_effects_app.
    + intros Hnone ev. unfold receive. cbn. by rewrite Hnone.
Qed.

Lemma filter_key_absent {V} (l : list (string * V)) (k : string) :
  k ∉ l.*1 → filter (λ kv : string * V, kv.1 = k) l = [].
Proof.
  induction l as [|[k' v'] l IH]; [done|]. intros Hk. cbn in Hk.
  rewrite filter_cons_False by (cbn; set_solver). apply IH. set_solver.
Qed.

Lemma filter_key_unique {V} (l : list (string * V)) (k : string) (v : V) :
  NoDup l.*1 → (k, v) ∈ l → filter (λ kv : string * V, kv.1 = k) l = [(k, v)].
Proof.
  induction l as [|[k' v'] l IH]; [by intros _ ?%elem_of_nil|].
  intros Hnd [Heq|Hin]%elem_of_cons; cbn in Hnd;
    apply NoDup_cons in Hnd as [Hfresh Hnodup].
  - injection Heq as <- <-. rewrite filter_cons_True by done.
    by rewrite filter_key_absent.
  - assert (k' ≠ k) as Hne.
    { intros ->. apply Hfresh. apply list_elem_of_fmap. by exists (k, v). }
    rewrite filter_cons_False by done. by apply IH.
Qed.

Lemma entries_of_lookup (w : World) (u : string) :
  entries_of u w =
    match activeUsers w !! u with Some e => [(u, e)] | None => [] end.
Proof.
  unfold entries_of. destruct (activeUsers w !! u) as [e|] eqn:Hu.
  - apply filter_key_unique; [apply NoDup_fst_map_to_list|].
    by apply elem_of_map_to_list.
  - apply filter_key_absent. intros ([k e] & -> & Hin)%list_elem_of_fmap.
    apply elem_of_map_to_list in Hin. cbn in *. congruence.
Qed.

(** C5.  After an admission the registry holds exactly one entry for the
    admitted identity: the new one, with this socket and the time of
    admission.  The entries of other identities are untouched, and the
    registry grows by one only when the identity had no entry: an older
    entry is replaced.  At no time does the registry list two entries for
    one identity. *)
Theorem admission_leaves_exactly_one_entry
    (w : World) (sid : string) (auth : list (string * JSValue)) (d : Decoded) :
  let token := Get (JObj auth) "token" in
  let w' := (connect clock jwt_verify sid auth w).2 in
  truthy token = true →
  verify jwt_verify token = Normal d →
  entries_of (d_userId d) w' =
    [(d_userId d, {| socketId := sid; connectedAt := clock (dates w);
                     lastSeen := clock (S (dates w)) |})] ∧
  (∀ u, u ≠ d_userId d → activeUsers w' !! u = activeUsers w !! u) ∧
  size (activeUsers w') =
    match activeUsers w !! d_userId d with
    | Some _ => size (activeUsers w)
    | None => S (size (activeUsers w))
    end ∧
  (∀ (v : World) (u : string), (length (entries_of u v) ≤ 1)%nat).
Proof.
  intros token w' Htruthy Hverify. subst token w'.
  assert (activeUsers (connect clock jwt_verify sid auth w).2 =
          <[d_userId d := {| socketId := sid; connectedAt := clock (dates w);
                             lastSeen := clock (S (dates w)) |}]> (activeUsers w))
    as Hreg.
  { unfold connect, bind. rewrite gate_cases, Htruthy, Hverify. by exec. }
  split; [|split; [|split]].
  - by rewrite entries_of_lookup, Hreg, lookup_insert_eq.
  - intros u Hu. by rewrite Hreg, lookup_insert_ne.
  - rewrite Hreg, map_size_insert. by destruct (activeUsers w !! d_userId d).
  - intros v u. rewrite entries_of_lookup.
    destruct (activeUsers v !! u); cbn; lia.
Qed.

Lemma heartbeat_spec (w : World) (sid : string) (socket : Socket) :
  wf clock w → sockets w !! sid = Some socket →
  receive clock sid heartbeat w =
    (Normal tt,
     match activeUsers w !! userId socket with
     | Some e =>
         with_trace (λ t, (t ++ [Emit {[sid]} (heartbeat_ack (clock (S (dates w))))])%list)
           (with_dates (λ n, S (S n))
              (with_activeUsers
                 <[userId socket := {| socketId := socketId e;
                                       connectedAt := connectedAt e;
                                       lastSeen := clock (dates w) |}]> w))
     | None =>
         with_trace (λ t, (t ++ [Emit {[sid]} (heartbeat_ack (clock (dates w)))])%list)
           (with_dates S w)
     end).
Proof.
  intros [Hnet _] Hsid. unfold receive. rewrite Hsid.
  assert (id socket = sid) as Hid
    by (by destruct Hnet as [Hs _]; destruct (Hs _ _ Hsid)).
  exec. rewrite Hid. by destruct (activeUsers w !! userId socket).
Qed.

(** C6, as the code has it.  A heartbeat is answered by one
    [heartbeat-ack], sent to the sender's socket and to no other, and
    nothing else is observed.  Its timestamp is a reading of the server
    clock taken while the heartbeat is handled: the next reading when the
    registry holds no entry for the sender's identity, and the reading
    after the one that goes into [lastSeen] when it holds one.  If the
    registry holds no entry for the identity it still holds none
    afterwards.  If it holds one, its [lastSeen] becomes the clock reading
    taken now, the previous value being an earlier reading: so [lastSeen]
    does not decrease when the clock does not run backwards, and it
    increases strictly when the clock has advanced between the two
    readings. *)
Theorem heartbeat_acks_sender_and_touches_entry
    (w : World) (sid : string) (socket : Socket) :
  reachable clock jwt_verify w →
  sockets w !! sid = Some socket →
  let w' := (receive clock sid heartbeat w).2 in
  new_effects w w' =
    [Emit {[sid]}
       (heartbeat_ack
          (clock (match activeUsers w !! userId socket with
                  | Some _ => S (dates w)
                  | None => dates w
                  end)))] ∧
  match activeUsers w !! userId socket with
  | None => activeUsers w' = activeUsers w
  | Some e =>
      activeUsers w' =
        <[userId socket := {| socketId := socketId e; connectedAt := connectedAt e;
                              lastSeen := clock (dates w) |}]> (activeUsers w) ∧
      (∃ k, k < dates w ∧ lastSeen e = clock k) ∧
      ((∀ i j, (i ≤ j)%nat → (clock i ≤ clock j)%Z) →
         (lastSeen e ≤ clock (dates w))%Z) ∧
      ((∀ i j, i < j → (clock i < clock j)%Z) →
         (lastSeen e < clock (dates w))%Z)
  end.
Proof.
  intros Hreach Hsid w'. subst w'.
  pose proof (reachable_wf _ _ _ Hreach) as Hwf.
  rewrite (heartbeat_spec w sid socket) by done. cbn [snd].
  destruct (activeUsers w !! userId socket) as [e|] eqn:He.
  - split; [by apply new_effects_app|].
    split; [done|]. destruct Hwf as [_ Hseen].
    destruct (Hseen _ _ He) as (k & Hk & Hlast).
    split; [by exists k|]. rewrite Hlast.
    split; intros Hclock; apply Hclock; lia.
  - split; [by apply new_effects_app | done].
Qed.

Lemma collaboration_update_spec (w : World) (sid : string) (socket : Socket)
    (data : JSValue) :
  wf clock w → sockets w !! sid = Some socket →
  receive clock sid (collaboration_update_in data) w =
    (Normal tt,
     match RequireObjectCoercible data with
     | Throw e =>
         with_trace (λ t, (t ++ [ConsoleError "Collaboration Update Error:" e])%list) w
     | Normal _ =>
         match ToString (Get data "groupId") with
         | Throw e =>
             with_trace
               (λ t, (t ++ [ConsoleError "Collaboration Update Error:" e])%list) w
         | Normal room =>
             with_trace
               (λ t, (t ++ [Emit (members ("group-" +:+ room) w ∖ {[sid]})
                              (collaboration_update (userId socket)
                                 (Get data "type") (Get data "content")
                                 (clock (dates w)))])%list)
               (with_dates S w)
         end
     end).
Proof.
  intros [Hnet _] Hsid. unfold receive. rewrite Hsid.
  assert (id socket = sid) as Hid
    by (by destruct Hnet as [Hs _]; destruct (Hs _ _ Hsid)).
  exec. rewrite Hid.
  destruct (RequireObjectCoercible data); [|done].
  destruct (ToString (Get data "groupId")) as [room|e]; [|done].
  cbn. by rewrite (recipients_of_room (with_dates S w) sid socket).
Qed.

(** C7, as the code has it.  A [collaboration-update] whose payload has no
    [groupId] is not validated.  When the payload itself is missing
    ([undefined] or [null]) the handler logs the destructuring error and
    sends nothing.  Otherwise nothing is logged and the update is relayed
    to the room the missing id spells, "group-undefined", leaving out the
    sender.  In both cases the handler returns normally, the connection,
    the rooms and the registry stay as they were, and a heartbeat sent
    next on the same connection is acknowledged. *)
Theorem collaboration_update_without_group_id
    (w : World) (sid : string) (socket : Socket) (data : JSValue) :
  reachable clock jwt_verify w →
  sockets w !! sid = Some socket →
  Get data "groupId" = JUndefined →
  let w' := (receive clock sid (collaboration_update_in data) w).2 in
  (receive clock sid (collaboration_update_in data) w).1 = Normal tt ∧
  match RequireObjectCoercible data with
  | Throw e =>
      new_effects w w' = [ConsoleError "Collaboration Update Error:" e]
  | Normal _ =>
      new_effects w w' =
        [Emit (members "group-undefined" w ∖ {[sid]})
           (collaboration_update (userId socket) (Get data "type")
              (Get data "content") (clock (dates w)))]
  end ∧
  sockets w' = sockets w ∧ rooms w' = rooms w ∧ activeUsers w' = activeUsers w ∧
  (∃ timestamp,
     new_effects w' (receive clock sid heartbeat w').2 =
       [Emit {[sid]} (heartbeat_ack timestamp)]).
Proof.
  intros Hreach Hsid Hmissing w'.
  pose proof (reachable_receive _ _ w sid (collaboration_update_in data) Hreach)
    as Hreach'.
  fold w' in Hreach'.
  assert (sockets w' = sockets w ∧ rooms w' = rooms w ∧
          activeUsers w' = activeUsers w ∧
          (receive clock sid (collaboration_update_in data) w).1 = Normal tt ∧
          match RequireObjectCoercible data with
          | Throw e =>
              new_effects w w' = [ConsoleError "Collaboration Update Error:" e]
          | Normal _ =>
              new_effects w w' =
                [Emit (members "group-undefined" w ∖ {[sid]})
                   (collaboration_update (userId socket) (Get data "type")
                      (Get data "content") (clock (dates w)))]
          end) as (Hss & Hrs & Hau & Hnormal & Heff).
  { subst w'.
    rewrite (collaboration_update_spec w sid socket data)
      by eauto using reachable_wf.
    rewrite Hmissing. cbn [snd fst ToString].
    destruct (RequireObjectCoercible data);
      (repeat split; [by apply new_effects_app]). }
  repeat split; try done.
  rewrite (heartbeat_spec w' sid socket)
    by (eauto using reachable_wf || by rewrite Hss).
  cbn [snd]. destruct (activeUsers w' !! userId socket);
    eexists; by apply new_effects_app.
Qed.

Ltac effects_tac :=
  unfold new_effects; cbn; rewrite <- ?app_assoc, ?drop_app_length, ?drop_all; cbn;
  let H := fresh in
  intros H; repeat (apply elem_of_cons in H as [H|H]; [try discriminate H|]);
  try (by apply elem_of_nil in H).

(** C8, as the code has it.  No step of the relay ends in an uncaught
    exception.  An [error] event is sent in one case only: when
    [join-study-group] fails, which it does exactly when the group id
    cannot be converted to a string; the handler then logs the error and
    sends [error] with the message "Failed to join study group" to the
    socket that sent the join, and to no other.  Failures in the other
    handlers, and rejected store updates, send nothing to anyone. *)
Theorem only_failed_join_reports_error_to_client (w : World) (i : Input) :
  (step clock jwt_verify i w).1 = Normal tt ∧
  (∀ receivers message,
     Emit receivers (error_event message) ∈ new_effects w (step clock jwt_verify i w).2 →
     ∃ sid socket groupId e,
       i = Receive sid (join_study_group groupId) ∧
       sockets w !! sid = Some socket ∧
       ToString groupId = Throw e ∧
       receivers = {[id socket]} ∧
       message = "Failed to join study group") ∧
  (∀ sid socket groupId e,
     i = Receive sid (join_study_group groupId) →
     sockets w !! sid = Some socket →
     ToString groupId = Throw e →
     new_effects w (step clock jwt_verify i w).2 =
       [ConsoleError "Join Study Group Error:" e;
        Emit {[id socket]} (error_event "Failed to join study group")]).
Proof.
  split; [|split].
  - destruct i as [sid auth|sid ev|sid reason|n ok]; unfold step.
    + unfold connect, bind. rewrite gate_cases.
      destruct (truthy (Get (JObj auth) "token")); [|done].
      by destruct (verify jwt_verify (Get (JObj auth) "token")).
    + unfold receive. destruct (sockets w !! sid) as [socket|]; [|done].
      destruct ev as [g|data|data|data|]; exec.
      * by destruct (ToString g).
      * destruct (RequireObjectCoercible data); [|done].
        by destruct (ToString (Get data "groupId")).
      * destruct (RequireObjectCoercible data); [|done].
        by destruct (ToString (Get data "sessionId")).
      * by destruct (RequireObjectCoercible data).
      * by destruct (activeUsers w !! userId socket).
    + unfold disconnect. destruct (sockets w !! sid) as [socket|]; [|done].
      exec. by destruct (User w).
    + unfold settle. destruct (pending w !! n); [|done]. by destruct ok.
  - intros receivers message.
    destruct i as [sid auth|sid ev|sid reason|n ok]; unfold step.
    + unfold connect, bind. rewrite gate_cases.
      destruct (truthy (Get (JObj auth) "token")); [|exec; effects_tac].
      destruct (verify jwt_verify (Get (JObj auth) "token")); exec; effects_tac.
    + unfold receive. destruct (sockets w !! sid) as [socket|] eqn:Hsid;
        [|effects_tac].
      destruct ev as [g|data|data|data|]; exec.
      * destruct (ToString g) as [room|e] eqn:Hg; [effects_tac|].
        effects_tac. simplify_eq. by exists sid, socket, g, e.
      * destruct (RequireObjectCoercible data); [|effects_tac].
        destruct (ToString (Get data "groupId")); effects_tac.
      * destruct (RequireObjectCoercible data); [|effects_tac].
        destruct (ToString (Get data "sessionId")); effects_tac.
      * destruct (RequireObjectCoercible data); effects_tac.
      * destruct (activeUsers w !! userId socket); effects_tac.
    + unfold disconnect. destruct (sockets w !! sid) as [socket|]; [|effects_tac].
      exec. destruct (User w); effects_tac.
    + unfold settle. destruct (pending w !! n); [|effects_tac].
      destruct ok; effects_tac.
  - intros sid socket groupId e -> Hsid Hg. unfold step, receive.
    rewrite Hsid. exec. rewrite Hg. cbn. apply new_effects_app. cbn.
    by rewrite <- app_assoc.
Qed.

Lemma typing_spec (w : World) (sid : string) (socket : Socket)
    (data : JSValue) (roomId : string) :
  wf clock w → sockets w !! sid = Some socket →
  Get data "roomId" = JStr roomId →
  receive clock sid (typing data) w =
    (Normal tt,
     with_trace
       (λ t, (t ++ [Emit (members roomId w ∖ {[sid]})
                      (user_typing (userId socket) (clock (dates w)))])%list)
       (with_dates S w)).
Proof.
  intros [Hnet _] Hsid Hroom. unfold receive. rewrite Hsid.
  assert (id socket = sid) as Hid
    by (by destruct Hnet as [Hs _]; destruct (Hs _ _ Hsid)).
  assert (RequireObjectCoercible data = Normal tt) as Hdata
    by (by destruct data).
  exec. rewrite Hdata, Hroom, Hid. cbn.
  by rewrite (recipients_of_room (with_dates S w) sid socket).
Qed.

Lemma group_room_differs (group : string) : "group-" +:+ group ≠ group.
Proof.
  intros Heq. apply (f_equal String.length) in Heq.
  rewrite length_append in Heq. cbn in Heq. lia.
Qed.

(** C10, as the code has it.  Joining the group [G] subscribes the socket
    to the room "group-" followed by [G], a name that is never [G] itself,
    and to no other room.  A [typing] event goes to the room named by its
    [roomId] as it stands: it is sent to exactly the other sockets
    subscribed to the room of that very name.  So with [roomId] equal to
    [G] it reaches those subscribed to a room literally named [G], members
    of the group or not, and with [roomId] equal to "group-" followed by
    [G] it reaches every other member of the group. *)
Theorem typing_goes_to_the_room_named_by_roomId
    (w : World) (sid : string) (socket : Socket) (group : string) :
  reachable clock jwt_verify w →
  sockets w !! sid = Some socket →
  "group-" +:+ group ≠ group ∧
  (let w' := (receive clock sid (join_study_group (JStr group)) w).2 in
   members ("group-" +:+ group) w' = {[sid]} ∪ members ("group-" +:+ group) w ∧
   ∀ room, room ≠ "group-" +:+ group → members room w' = members room w) ∧
  (∀ data roomId,
     Get data "roomId" = JStr roomId →
     new_effects w (receive clock sid (typing data) w).2 =
       [Emit (members roomId w ∖ {[sid]})
          (user_typing (userId socket) (clock (dates w)))]).
Proof.
  intros Hreach Hsid. pose proof (reachable_wf _ _ _ Hreach) as Hwf.
  split; [apply group_room_differs|]. split.
  - rewrite (join_study_group_spec w sid socket (JStr group) group) by done.
    cbn [snd]. unfold members. cbn. split.
    + by rewrite lookup_adapter_add, decide_True.
    + intros room Hne. by rewrite lookup_adapter_add, decide_False.
  - intros data roomId Hroom.
    rewrite (typing_spec w sid socket data roomId) by done.
    by apply new_effects_app.
Qed.

End RelayProperties.

(** * The scenarios *)

Section Scenarios.

Import Scenario.

Context (clock : nat → Z).

Lemma reachable_one_user : reachable clock jwt_verify (one_user clock).
Proof. apply reachable_connect; [apply reachable_init | done | done]. Qed.

Lemma reachable_two_users : reachable clock jwt_verify (two_users clock).
Proof.
  apply reachable_connect; [apply reachable_one_user | by vm_compute | done].
Qed.

Lemma reachable_two_tabs : reachable clock jwt_verify (two_tabs clock).
Proof.
  apply reachable_connect; [apply reachable_one_user | by vm_compute | done].
Qed.

Lemma reachable_u2_in_g1 : reachable clock jwt_verify (u2_in_g1 clock).
Proof. apply reachable_receive, reachable_two_users. Qed.

Lemma reachable_u2_in_unnamed : reachable clock jwt_verify (u2_in_unnamed clock).
Proof. apply reachable_receive, reachable_two_users. Qed.

Lemma reachable_u2_in_namesake : reachable clock jwt_verify (u2_in_namesake clock).
Proof. apply reachable_receive, reachable_two_users. Qed.

Lemma reachable_first_tab_closed :
  reachable clock jwt_verify (first_tab_closed clock).
Proof. apply reachable_disconnect, reachable_two_tabs. Qed.

End Scenarios.

(** C1 at work: [u1] joins the group [g1], of which [u2] is a member. *)
Lemma join_room_witness :
  let w := Scenario.u2_in_g1 Scenario.ticking in
  let w' := (receive Scenario.ticking "s1" (join_study_group (JStr "g1")) w).2 in
  "s1" ∈ members "group-g1" w' ∧
  (∃ receivers ev,
     new_effects w w' =
       [Emit receivers ev; ConsoleLog "User u1 joined study group g1"] ∧
     ev = user_joined_group "u1" (JStr "g1") (Scenario.ticking (dates w)) ∧
     ("s1" ∉ receivers) ∧
     (∀ other, other ≠ "s1" → other ∈ members "group-g1" w → other ∈ receivers)).
Proof.
  intros w w'.
  apply (join_room_adds_sender_and_notifies_others Scenario.ticking
           Scenario.jwt_verify w "s1" Scenario.socket1 (JStr "g1") "g1").
  - apply reachable_u2_in_g1.
  - vm_compute. reflexivity.
  - reflexivity.
Defined.

(** C2 at work: [u1] disconnects while [u2] stays. *)
Lemma disconnect_witness :
  let w := Scenario.two_users Scenario.ticking in
  let w' := (disconnect Scenario.ticking "s1" "transport close" w).2 in
  (∀ room, "s1" ∉ members room w') ∧
  sockets w' !! "s1" = None ∧
  activeUsers w' !! "u1" = None ∧
  (∃ timestamp issued,
     new_effects w w' =
       ([ConsoleLog "❌ User u1 disconnected: transport close"] ++
        (Query <$> issued) ++
        [Emit (dom (sockets w) ∖ {["s1"]}) (user_offline "u1" timestamp)])%list ∧
     pending w' = (pending w ++ issued)%list ∧
     issued =
       if User w then
         [{| db_id := "u1"; db_isOnline := false;
             db_lastActive := Scenario.ticking (dates w) |}]
       else []) ∧
  (∀ n, (settle n false w').1 = Normal tt ∧
        new_effects w' (settle n false w').2 = [] ∧
        db (settle n false w').2 = db w').
Proof.
  intros w w'.
  apply (disconnect_tears_down_and_swallows_silently Scenario.ticking
           Scenario.jwt_verify w "s1" "transport close" Scenario.socket1).
  - apply reachable_two_users.
  - vm_compute. reflexivity.
Defined.

(** C2 fails as stated: the store rejects the last-seen update queued by a
    disconnect, and nothing is logged. *)
Lemma rejected_update_is_not_logged :
  let w := Scenario.u1_gone Scenario.ticking in
  pending w = [{| db_id := "u1"; db_isOnline := false;
                  db_lastActive := Scenario.ticking 3 |}] ∧
  new_effects w (settle 0 false w).2 = [].
Proof. vm_compute. done. Qed.

(** C3 fails on the code: [u1] has two connections, the first one closes,
    and the registry has no entry for [u1] although the second connection
    is still admitted and active. *)
Theorem presence_lost_while_a_connection_remains :
  let w := Scenario.first_tab_closed Scenario.ticking in
  reachable Scenario.ticking Scenario.jwt_verify w ∧
  sockets w !! "s3" = Some Scenario.socket3 ∧
  activeUsers w !! "u1" = None.
Proof.
  split; [apply reachable_first_tab_closed|]. vm_compute. done.
Qed.

(** C4 at work: a handshake with no token, and one with a forged token. *)
Lemma gate_witness :
  let w := Scenario.start in
  let w' := (connect Scenario.ticking Scenario.jwt_verify "s9" [] w).2 in
  let w'' := (connect Scenario.ticking Scenario.jwt_verify "s9"
                (Scenario.auth "forged") w).2 in
  new_effects w w' = [ConnectError "s9" "Authentication error: No token provided"] ∧
  activeUsers w' = activeUsers w ∧
  (∀ ev, receive Scenario.ticking "s9" ev w' = (Normal tt, w')) ∧
  new_effects w w'' =
    [ConsoleError "Socket Auth Error:" (JsonWebTokenError "invalid signature");
     ConnectError "s9" "Authentication error: Invalid token"] ∧
  activeUsers w'' = activeUsers w.
Proof.
  intros w w' w''.
  destruct (gate_refuses_without_valid_token Scenario.ticking
              Scenario.jwt_verify w "s9" []) as (Hno & _ & Hreg & _ & _ & Hquiet).
  { left. reflexivity. }
  destruct (gate_refuses_without_valid_token Scenario.ticking
              Scenario.jwt_verify w "s9" (Scenario.auth "forged"))
    as (_ & Hbad & Hreg' & _).
  { right. eexists. reflexivity. }
  split; [apply Hno; reflexivity|]. split; [exact Hreg|].
  split; [apply Hquiet; reflexivity|].
  split; [apply Hbad; reflexivity | exact Hreg'].
Defined.

(** C5 at work: [u1] is admitted a second time, on a new socket. *)
Lemma admission_witness :
  let w := Scenario.one_user Scenario.ticking in
  let w' := (connect Scenario.ticking Scenario.jwt_verify "s3"
               (Scenario.auth "token-u1") w).2 in
  entries_of "u1" w' =
    [("u1", {| socketId := "s3"; connectedAt := Scenario.ticking 3;
               lastSeen := Scenario.ticking 4 |})] ∧
  size (activeUsers w') = size (activeUsers w).
Proof.
  intros w w'.
  destruct (admission_leaves_exactly_one_entry Scenario.ticking
              Scenario.jwt_verify w "s3" (Scenario.auth "token-u1")
              {| d_userId := "u1"; d_email := "u1@learnova.test" |})
    as (Hone & _ & Hsize & _).
  - reflexivity.
  - reflexivity.
  - split; [exact Hone | exact Hsize].
Defined.

(** C6 at work: a heartbeat of [u1] under the ticking clock.  The entry
    takes one reading of the clock and the ack the next. *)
Lemma heartbeat_witness :
  let w := Scenario.two_users Scenario.ticking in
  let w' := (receive Scenario.ticking "s1" heartbeat w).2 in
  new_effects w w' =
    [Emit {["s1"]} (heartbeat_ack (Scenario.ticking (S (dates w))))] ∧
  (lastSeen <$> activeUsers w' !! "u1") = Some (Scenario.ticking (dates w)).
Proof.
  intros w w'.
  destruct (heartbeat_acks_sender_and_touches_entry Scenario.ticking
              Scenario.jwt_verify w "s1" Scenario.socket1) as [Hack Htouch].
  - apply reachable_two_users.
  - vm_compute. reflexivity.
  - split; [exact Hack|]. vm_compute. reflexivity.
Defined.

(** C6 fails as stated: two heartbeats handled within one millisecond
    leave [lastSeen] where it was. *)
Lemma heartbeats_within_a_millisecond :
  let w0 := Scenario.one_user Scenario.burst in
  let w1 := (receive Scenario.burst "s1" heartbeat w0).2 in
  let w2 := (receive Scenario.burst "s1" heartbeat w1).2 in
  ∃ e1 e2,
    activeUsers w1 !! "u1" = Some e1 ∧
    activeUsers w2 !! "u1" = Some e2 ∧
    ¬ (lastSeen e1 < lastSeen e2)%Z.
Proof. eexists _, _. vm_compute. repeat split. intros [=]. Qed.

(** C7 at work: [u1] sends a [collaboration-update] with no payload. *)
Lemma malformed_update_witness :
  let w := Scenario.two_users Scenario.ticking in
  let w' := (receive Scenario.ticking "s1" (collaboration_update_in JUndefined) w).2 in
  new_effects w w' =
    [ConsoleError "Collaboration Update Error:"
       (TypeError "Cannot destructure 'data' as it is undefined.")] ∧
  sockets w' = sockets w ∧
  (∃ timestamp,
     new_effects w' (receive Scenario.ticking "s1" heartbeat w').2 =
       [Emit {["s1"]} (heartbeat_ack timestamp)]).
Proof.
  intros w w'.
  destruct (collaboration_update_without_group_id Scenario.ticking
              Scenario.jwt_verify w "s1" Scenario.socket1 JUndefined)
    as (_ & Heff & Hopen & _ & _ & Hack).
  - apply reachable_two_users.
  - vm_compute. reflexivity.
  - reflexivity.
  - split; [exact Heff|]. split; [exact Hopen | exact Hack].
Defined.

(** C7 fails as stated: the payload lacks [groupId], nothing is logged,
    and the update is delivered to [u2], who sits in "group-undefined". *)
Lemma update_without_group_id_is_relayed :
  let w := Scenario.u2_in_unnamed Scenario.ticking in
  let data := JObj [("type", JStr "edit"); ("content", JStr "hello")] in
  Get data "groupId" = JUndefined ∧
  new_effects w (receive Scenario.ticking "s1" (collaboration_update_in data) w).2 =
    [Emit {["s2"]}
       (collaboration_update "u1" (JStr "edit") (JStr "hello") (Scenario.ticking 7))].
Proof. vm_compute. done. Qed.

(** C8 at work: the group id [{ toString: 1 }]. *)
Lemma failed_join_witness :
  let w := Scenario.one_user Scenario.ticking in
  new_effects w
    (step Scenario.ticking Scenario.jwt_verify
       (Receive "s1" (join_study_group Scenario.unprintable)) w).2 =
    [ConsoleError "Join Study Group Error:"
       (TypeError "Cannot convert object to primitive value");
     Emit {["s1"]} (error_event "Failed to join study group")].
Proof.
  intros w.
  destruct (only_failed_join_reports_error_to_client Scenario.ticking
              Scenario.jwt_verify w
              (Receive "s1" (join_study_group Scenario.unprintable)))
    as (_ & _ & Hreport).
  apply (Hreport "s1" Scenario.socket1 Scenario.unprintable
           (TypeError "Cannot convert object to primitive value")).
  - reflexivity.
  - vm_compute. reflexivity.
  - reflexivity.
Defined.

(** C8 fails as stated: a join that fails is reported back to the client
    that sent it. *)
Lemma failed_join_is_reported_to_sender :
  let w := Scenario.one_user Scenario.ticking in
  let w' := (receive Scenario.ticking "s1"
               (join_study_group Scenario.unprintable) w).2 in
  new_effects w w' =
    [ConsoleError "Join Study Group Error:"
       (TypeError "Cannot convert object to primitive value");
     Emit {["s1"]} (error_event "Failed to join study group")].
Proof. vm_compute. done. Qed.

(** C10 at work: [u1] types into the group [g1] that [u2] has joined. *)
Lemma typing_witness :
  let w := Scenario.u2_in_g1 Scenario.ticking in
  new_effects w
    (receive Scenario.ticking "s1" (typing (JObj [("roomId", JStr "g1")])) w).2 =
    [Emit (members "g1" w ∖ {["s1"]}) (user_typing "u1" (Scenario.ticking (dates w)))] ∧
  new_effects w
    (receive Scenario.ticking "s1" (typing (JObj [("roomId", JStr "group-g1")])) w).2 =
    [Emit (members "group-g1" w ∖ {["s1"]})
       (user_typing "u1" (Scenario.ticking (dates w)))].
Proof.
  intros w.
  destruct (typing_goes_to_the_room_named_by_roomId Scenario.ticking
              Scenario.jwt_verify w "s1" Scenario.socket1 "g1")
    as (_ & _ & Htyping).
  - apply reachable_u2_in_g1.
  - vm_compute. reflexivity.
  - split; apply Htyping; reflexivity.
Defined.

(** C10 fails as stated: [u2] is a member of the group whose id is
    "user-u2", and a [typing] event with that bare id as [roomId] is
    delivered to [u2]. *)
Lemma typing_with_bare_group_id_reaches_member :
  let w := Scenario.u2_in_namesake Scenario.ticking in
  let G := "user-u2" in
  members ("group-" +:+ G) w = {["s2"]} ∧
  new_effects w
    (receive Scenario.ticking "s1" (typing (JObj [("roomId", JStr G)])) w).2 =
    [Emit {["s2"]} (user_typing "u1" (Scenario.ticking 7))].
Proof. vm_compute. done. Qed.

(** * Properties of the cache eviction *)

Section CacheProperties.

Import ServiceWorker.

Lemma cache_delete_absent (key : string) (cache : list Entry) :
  key ∉ cache_keys cache → cache_delete key cache = cache.
Proof.
  unfold cache_delete, cache_keys.
  induction cache as [|[k r] cache IH]; [done|]. intros Hk. cbn in Hk.
  rewrite filter_cons_True by (cbn; set_solver). f_equal. apply IH. set_solver.
Qed.

Lemma cache_delete_head (key : string) (response : Response) (cache : list Entry) :
  key ∉ cache_keys cache → cache_delete key ((key, response) :: cache) = cache.
Proof.
  intros Hk. unfold cache_delete. rewrite filter_cons_False by (cbn; tauto).
  by apply cache_delete_absent.
Qed.

(** Deleting the first [k] keys of a cache leaves its other entries, in
    their order. *)
Lemma delete_all_oldest (k : nat) (cache : list Entry) :
  NoDup (cache_keys cache) →
  delete_all (take k (cache_keys cache)) cache = drop k cache.
Proof.
  revert k. induction cache as [|[key r] cache IH]; intros k Hnd.
  - by destruct k.
  - destruct k as [|k]; [done|]. cbn in Hnd.
    apply NoDup_cons in Hnd as [Hfresh Hnd].
    cbn [cache_keys fmap list_fmap take drop fst]. unfold delete_all. cbn [foldl].
    rewrite cache_delete_head by done. by apply IH.
Qed.

(** The eviction is first in, first out: run on a cache with more than
    [maxItems] entries, [limitCacheSize] deletes the oldest ones and keeps
    exactly the [maxItems] entries inserted last; a cache within the limit
    is left alone. *)
Lemma limitCacheSize_fifo (maxItems : nat) (cache : list Entry) :
  NoDup (cache_keys cache) →
  limitCacheSize maxItems cache = drop (length cache - maxItems) cache ∧
  length (limitCacheSize maxItems cache) = min maxItems (length cache).
Proof.
  intros Hnd.
  assert (limitCacheSize maxItems cache = drop (length cache - maxItems) cache) as ->.
  { unfold limitCacheSize, keysToDelete. cbn zeta.
    replace (length (cache_keys cache)) with (length cache)
      by (unfold cache_keys; by rewrite length_fmap).
    destruct (Nat.ltb_spec maxItems (length cache)) as [Hlt|Hge].
    - by apply delete_all_oldest.
    - by replace (length cache - maxItems) with 0 by lia. }
  split; [done|]. rewrite length_drop. lia.
Qed.

Lemma cache_keys_delete (key k : string) (cache : list Entry) :
  k ∈ cache_keys (cache_delete key cache) → k ∈ cache_keys cache.
Proof.
  unfold cache_keys, cache_delete.
  intros (e & -> & [_ He]%list_elem_of_filter)%list_elem_of_fmap.
  apply list_elem_of_fmap. by exists e.
Qed.

Lemma cache_keys_delete_all (keys : list string) (k : string) (cache : list Entry) :
  k ∈ cache_keys (delete_all keys cache) → k ∈ cache_keys cache.
Proof.
  revert cache. induction keys as [|key keys IH]; intros cache; [done|].
  unfold delete_all. cbn [foldl]. intros Hk%IH. by eapply cache_keys_delete.
Qed.

Lemma delete_all_snoc (keys : list string) (cache : list Entry) (e : Entry) :
  e.1 ∉ keys → delete_all keys (cache ++ [e]) = delete_all keys cache ++ [e].
Proof.
  revert cache. induction keys as [|key keys IH]; intros cache Hne; [done|].
  unfold delete_all. cbn [foldl]. unfold cache_delete at 2.
  rewrite filter_app, filter_cons_True, filter_nil by set_solver.
  apply IH. set_solver.
Qed.

Lemma keysToDelete_subset (maxItems : nat) (cache : list Entry) (k : string) :
  k ∈ keysToDelete maxItems cache → k ∈ cache_keys cache.
Proof.
  unfold keysToDelete. cbn zeta.
  destruct (maxItems <? length (cache_keys cache))%nat;
    [|by intros ?%elem_of_nil].
  intros (i & Hi)%list_elem_of_lookup. apply list_elem_of_lookup.
  exists i. apply lookup_take_Some in Hi. tauto.
Qed.

Lemma cache_put_whole (request : string) (response : Response) (cache : list Entry) :
  partial response = false →
  cache_put request response cache = cache_delete request cache ++ [(request, response)].
Proof. unfold cache_put. by intros ->. Qed.

Lemma cache_put_partial (request : string) (response : Response) (cache : list Entry) :
  partial response = true → cache_put request response cache = cache.
Proof. unfold cache_put. by intros ->. Qed.

Lemma cache_put_fresh (request : string) (response : Response) (cache : list Entry) :
  partial response = false → request ∉ cache_keys cache →
  cache_put request response cache = cache ++ [(request, response)].
Proof. intros Hwhole Hfresh. by rewrite cache_put_whole, cache_delete_absent. Qed.

Lemma NoDup_cache_put (request : string) (response : Response) (cache : list Entry) :
  NoDup (cache_keys cache) → NoDup (cache_keys (cache_put request response cache)).
Proof.
  intros Hnd. unfold cache_put. destruct (partial response); [done|].
  unfold cache_keys. rewrite fmap_app. cbn.
  apply NoDup_app. split; [|split].
  - eapply sublist_NoDup; [exact Hnd|].
    apply fmap_sublist, sublist_filter.
  - intros k (e & Hk & [He _]%list_elem_of_filter)%list_elem_of_fmap
      Heq%list_elem_of_singleton. apply He. congruence.
  - apply NoDup_singleton.
Qed.

(** A partial response is not put: what is left of the caching step is the
    trimming. *)
Lemma trim_and_put_partial (schedule : Schedule) (request : string)
    (response : Response) (cache : list Entry) :
  partial response = true →
  trim_and_put schedule request response cache = limitCacheSize DYNAMIC_LIMIT cache.
Proof.
  intros Hpartial. destruct schedule as [|n]; unfold trim_and_put; cbn zeta;
    rewrite cache_put_partial by done; [done|].
  unfold limitCacheSize.
  rewrite <- (take_drop n (keysToDelete DYNAMIC_LIMIT cache)) at 3.
  unfold delete_all. by rewrite foldl_app.
Qed.

(** Whenever the keys are read before the put of a new URL lands, the
    cache is trimmed as if the put were not there and the new entry comes
    on top: a cache at or over the limit ends one entry over it. *)
Lemma put_after_keys (n : nat) (request : string) (response : Response)
    (cache : list Entry) :
  NoDup (cache_keys cache) → request ∉ cache_keys cache →
  partial response = false →
  trim_and_put (PutAfterDeletes n) request response cache =
    limitCacheSize DYNAMIC_LIMIT cache ++ [(request, response)] ∧
  length (trim_and_put (PutAfterDeletes n) request response cache) =
    S (min DYNAMIC_LIMIT (length cache)).
Proof.
  intros Hnd Hfresh Hwhole.
  assert (trim_and_put (PutAfterDeletes n) request response cache =
          limitCacheSize DYNAMIC_LIMIT cache ++ [(request, response)]) as ->.
  { unfold trim_and_put. cbn zeta. rewrite cache_put_whole by done.
    rewrite cache_delete_absent
      by (intros Hin%cache_keys_delete_all; contradiction).
    rewrite delete_all_snoc.
    - f_equal. unfold limitCacheSize.
      rewrite <- (take_drop n (keysToDelete DYNAMIC_LIMIT cache)) at 3.
      unfold delete_all. by rewrite foldl_app.
    - cbn. intros Hin. apply (subseteq_drop n) in Hin.
      by apply keysToDelete_subset in Hin. }
  split; [done|].
  rewrite length_app, (proj2 (limitCacheSize_fifo DYNAMIC_LIMIT cache Hnd)).
  cbn [length]. lia.
Qed.

(** When the put lands before the keys are read, the trimming counts the
    new entry and the limit holds. *)
Lemma put_before_keys (request : string) (response : Response)
    (cache : list Entry) :
  NoDup (cache_keys cache) →
  (length (trim_and_put PutBeforeKeys request response cache) ≤ DYNAMIC_LIMIT)%nat.
Proof.
  intros Hnd. unfold trim_and_put.
  pose proof (NoDup_cache_put request response cache Hnd) as Hnd'.
  destruct (limitCacheSize_fifo DYNAMIC_LIMIT _ Hnd') as [_ ->]. lia.
Qed.

(** C9 fails on the code: the dynamic cache holds fifty entries, the limit;
    a new URL is fetched with an [ok] response, the keys are read before
    the put lands (in the order of the statements, or with the put in
    between), and the cache ends with fifty-one entries. *)
Theorem dynamic_cache_exceeds_limit :
  let request := "/img/new.png" in
  let response := {| status := 200; body := "" |} in
  length full_cache = DYNAMIC_LIMIT ∧
  NoDup (cache_keys full_cache) ∧
  ∀ n, length (handleDynamicRequest (PutAfterDeletes n) request
                 (Fetched response) full_cache).2 = S DYNAMIC_LIMIT.
Proof.
  split; [done|]. split.
  - apply (bool_decide_unpack _). by vm_compute.
  - intros n. cbn [handleDynamicRequest ok status snd]. unfold trim_and_put.
    assert (keysToDelete DYNAMIC_LIMIT full_cache = []) as -> by done.
    rewrite take_nil, drop_nil. by vm_compute.
Qed.

End CacheProperties.

(** * More of the relay *)

Section RelayExtras.

Context (clock : nat → Z) (jwt_verify : string → Completion Decoded).

Lemma members_delAll (sid room : string) (rs : gmap string (gset string)) :
  default ∅ (adapter_delAll sid rs !! room) = default ∅ (rs !! room) ∖ {[sid]}.
Proof.
  rewrite lookup_adapter_delAll. destruct (rs !! room) as [ms|]; cbn; [|set_solver].
  by case_decide.
Qed.

Lemma group_room_not_user_room (g u : string) : "group-" +:+ g ≠ "user-" +:+ u.
Proof. intros Heq. discriminate Heq. Qed.

Lemma recipients_all_but (w : World) (sid : string) :
  rooms w !! sid = Some {[sid]} →
  recipients w [] [JStr sid] = dom (sockets w) ∖ {[sid]}.
Proof.
  intros Hown. unfold recipients. cbn. unfold members. rewrite Hown. cbn.
  set_solver.
Qed.

Lemma connect_admitted_spec (w : World) (sid : string)
    (auth : list (string * JSValue)) (d : Decoded) :
  wf clock w → sockets w !! sid = None → engine_id sid = true →
  truthy (Get (JObj auth) "token") = true →
  verify jwt_verify (Get (JObj auth) "token") = Normal d →
  let socket := {| id := sid; userId := d_userId d; userEmail := d_email d |} in
  connect clock jwt_verify sid auth w =
    (Normal tt,
     {| activeUsers :=
          <[d_userId d := {| socketId := sid; connectedAt := clock (dates w);
                             lastSeen := clock (S (dates w)) |}]> (activeUsers w);
        sockets := <[sid := socket]> (sockets w);
        rooms := adapter_add sid ("user-" +:+ d_userId d)
                   (adapter_add sid sid (rooms w));
        dates := S (S (S (dates w)));
        trace := trace w ++
          [ConsoleLog ("✅ User " +:+ d_userId d +:+ " connected via Socket.io");
           Emit (dom (sockets w)) (user_online (d_userId d) (clock (S (S (dates w)))))];
        pending := pending w;
        db := db w;
        User := User w |}).
Proof.
  intros [Hnet _] Hsid He Htruthy Hverify socket.
  unfold connect, bind. rewrite gate_cases, Htruthy, Hverify. exec.
  pose proof (wf_net_fresh_room _ _ _ Hnet Hsid He) as Hnone.
  rewrite recipients_all_but.
  - cbn. rewrite dom_insert_L. apply not_elem_of_dom in Hsid.
    assert (({[sid]} ∪ dom (sockets w)) ∖ {[sid]} = dom (sockets w)) as ->
      by set_solver.
    unfold with_trace. cbn. by rewrite <- app_assoc.
  - cbn. rewrite lookup_adapter_add, decide_False
      by (intros Heq; rewrite <- Heq, user_room_not_engine_id in He; done).
    rewrite lookup_adapter_add, decide_True, Hnone by done. cbn.
    f_equal. set_solver.
Qed.

(** X1.  A handshake with a token that verifies is admitted under the
    identity of the token: the socket enters the namespace, it alone is in
    the room of its own id, it joins the personal room "user-" followed by
    its identity, and [user-online] is broadcast to every connection that
    was there before, not to the new one. *)
Theorem admission_joins_personal_room_and_announces
    (w : World) (sid : string) (auth : list (string * JSValue)) (d : Decoded) :
  reachable clock jwt_verify w →
  sockets w !! sid = None →
  engine_id sid = true →
  truthy (Get (JObj auth) "token") = true →
  verify jwt_verify (Get (JObj auth) "token") = Normal d →
  let w' := (connect clock jwt_verify sid auth w).2 in
  sockets w' =
    <[sid := {| id := sid; userId := d_userId d; userEmail := d_email d |}]> (sockets w) ∧
  members sid w' = {[sid]} ∧
  members ("user-" +:+ d_userId d) w' = {[sid]} ∪ members ("user-" +:+ d_userId d) w ∧
  new_effects w w' =
    [ConsoleLog ("✅ User " +:+ d_userId d +:+ " connected via Socket.io");
     Emit (dom (sockets w)) (user_online (d_userId d) (clock (S (S (dates w)))))] ∧
  sid ∉ dom (sockets w).
Proof.
  intros Hreach Hsid He Htruthy Hverify w'. subst w'.
  pose proof (reachable_wf _ _ _ Hreach) as Hwf.
  rewrite (connect_admitted_spec w sid auth d) by done. cbn [snd].
  pose proof (wf_net_fresh_room _ _ _ (proj1 Hwf) Hsid He) as Hnone.
  assert ("user-" +:+ d_userId d ≠ sid) as Hne
    by (intros Heq; rewrite <- Heq, user_room_not_engine_id in He; done).
  split; [done|]. split; [|split; [|split]].
  - unfold members. cbn. rewrite lookup_adapter_add, decide_False by done.
    rewrite lookup_adapter_add, decide_True, Hnone by done. cbn. set_solver.
  - unfold members. cbn. rewrite lookup_adapter_add, decide_True by done.
    by rewrite lookup_adapter_add, decide_False.
  - by apply new_effects_app.
  - by apply not_elem_of_dom.
Qed.

(** X2.  In every reachable state the personal room of an identity holds
    exactly the connected sockets admitted under that identity. *)
Theorem personal_room_holds_the_sockets_of_its_identity (w : World) :
  reachable clock jwt_verify w →
  ∀ t u, t ∈ members ("user-" +:+ u) w ↔
         ∃ socket, sockets w !! t = Some socket ∧ userId socket = u.
Proof.
  induction 1 as [| w sid auth Hreach IH Hsid He | w sid ev Hreach IH
                 | w sid reason Hreach IH | w n ok _ IH]; intros t u.
  - unfold members. cbn. rewrite lookup_empty. cbn.
    split; [set_solver|]. intros (? & Hx & _). by rewrite lookup_empty in Hx.
  - pose proof (reachable_wf _ _ _ Hreach) as Hwf.
    unfold connect, bind. rewrite gate_cases.
    destruct (truthy (Get (JObj auth) "token")) eqn:Htruthy; [|exec; apply IH].
    destruct (verify jwt_verify (Get (JObj auth) "token")) as [d|err] eqn:Hverify;
      [|exec; apply IH].
    pose proof (connect_admitted_spec w sid auth d Hwf Hsid He Htruthy Hverify) as Hc.
    unfold connect, bind in Hc. rewrite gate_cases, Htruthy, Hverify in Hc.
    rewrite Hc. cbn [snd]. unfold members. cbn.
    assert (∀ x, sid ≠ "user-" +:+ x) as Hne
      by (intros x Heq; rewrite Heq, user_room_not_engine_id in He; done).
    assert (t ∈ members ("user-" +:+ u) w → t ≠ sid) as Hold.
    { intros (socket & Hsock & _)%IH ->. congruence. }
    destruct (decide (d_userId d = u)) as [<-|Hu].
    + rewrite lookup_adapter_add, decide_True by done.
      rewrite lookup_adapter_add, decide_False by done. cbn.
      fold (members ("user-" +:+ d_userId d) w).
      rewrite elem_of_union, elem_of_singleton, IH. split.
      * intros [->|(socket & Hsock & Hu)].
        -- eexists. by rewrite lookup_insert_eq.
        -- exists socket. split; [|done]. rewrite lookup_insert_ne; [done|].
           intros ->. congruence.
      * intros (socket & Hsock & Hu). rewrite lookup_insert in Hsock.
        case_decide; [by left|]. right. by exists socket.
    + rewrite lookup_adapter_add, decide_False
        by (intros Heq%(inj (String.app "user-")); done).
      rewrite lookup_adapter_add, decide_False by done.
      fold (members ("user-" +:+ u) w). rewrite IH. split.
      * intros (socket & Hsock & Hu'). exists socket. split; [|done].
        rewrite lookup_insert_ne; [done|]. intros ->. congruence.
      * intros (socket & Hsock & Hu'). rewrite lookup_insert in Hsock.
        case_decide as Ht; [|by exists socket].
        injection Hsock as <-. cbn in Hu'. done.
  - unfold receive. destruct (sockets w !! sid) as [socket|] eqn:Hsid; [|apply IH].
    destruct ev as [g|data|data|data|]; exec.
    + destruct (ToString g) as [room|err]; [|apply IH]. cbn.
      unfold members. cbn. rewrite lookup_adapter_add, decide_False
        by apply group_room_not_user_room. apply IH.
    + destruct (RequireObjectCoercible data); [|apply IH].
      destruct (ToString (Get data "groupId")); apply IH.
    + destruct (RequireObjectCoercible data); [|apply IH].
      destruct (ToString (Get data "sessionId")); apply IH.
    + destruct (RequireObjectCoercible data); apply IH.
    + destruct (activeUsers w !! userId socket); apply IH.
  - destruct (sockets w !! sid) as [socket|] eqn:Hsid;
      [|unfold disconnect; rewrite Hsid; apply IH].
    rewrite (disconnect_spec clock jwt_verify w sid reason socket)
      by eauto using reachable_wf.
    cbn [snd]. unfold members. cbn. rewrite members_delAll.
    fold (members ("user-" +:+ u) w).
    rewrite elem_of_difference, elem_of_singleton, IH. split.
    + intros [(sk & Hsock & Hu) Hne]. exists sk. by rewrite lookup_delete_ne.
    + intros (sk & Hsock & Hu). rewrite lookup_delete in Hsock.
      case_decide as Ht; [done|]. split; [by exists sk | congruence].
  - unfold settle. destruct (pending w !! n); [|apply IH].
    exec. destruct ok; apply IH.
Qed.

(** X3.  A [collaboration-update] whose group id converts to a string is
    relayed as it came: one event, carrying the sender's identity as the
    gate fixed it, the [type] and [content] of the payload untouched and
    the server time, goes to exactly the other members of the group's
    room; the registry, the rooms and the namespace do not change and
    nothing is logged. *)
Theorem collaboration_update_is_relayed_to_the_group
    (w : World) (sid : string) (socket : Socket) (data : JSValue) (group : string) :
  reachable clock jwt_verify w →
  sockets w !! sid = Some socket →
  RequireObjectCoercible data = Normal tt →
  ToString (Get data "groupId") = Normal group →
  let w' := (receive clock sid (collaboration_update_in data) w).2 in
  new_effects w w' =
    [Emit (members ("group-" +:+ group) w ∖ {[sid]})
       (collaboration_update (userId socket) (Get data "type") (Get data "content")
          (clock (dates w)))] ∧
  activeUsers w' = activeUsers w ∧ rooms w' = rooms w ∧ sockets w' = sockets w.
Proof.
  intros Hreach Hsid Hdata Hgroup w'. subst w'.
  rewrite (collaboration_update_spec clock jwt_verify w sid socket data)
    by eauto using reachable_wf.
  rewrite Hdata, Hgroup. cbn [snd]. split; [by apply new_effects_app | done].
Qed.

Lemma practice_update_spec (w : World) (sid : string) (socket : Socket)
    (data : JSValue) :
  wf clock w → sockets w !! sid = Some socket →
  receive clock sid (practice_update_in data) w =
    (Normal tt,
     match RequireObjectCoercible data with
     | Throw e =>
         with_trace (λ t, t ++ [ConsoleError "Practice Update Error:" e]) w
     | Normal _ =>
         match ToString (Get data "sessionId") with
         | Throw e =>
             with_trace (λ t, t ++ [ConsoleError "Practice Update Error:" e]) w
         | Normal room =>
             with_trace
               (λ t, t ++ [Emit (members ("session-" +:+ room) w ∖ {[sid]})
                             (practice_update (userId socket)
                                (Get data "progress") (Get data "accuracy")
                                (clock (dates w)))])
               (with_dates S w)
         end
     end).
Proof.
  intros [Hnet _] Hsid. unfold receive. rewrite Hsid.
  assert (id socket = sid) as Hid
    by (by destruct Hnet as [Hs _]; destruct (Hs _ _ Hsid)).
  exec. rewrite Hid.
  destruct (RequireObjectCoercible data); [|done].
  destruct (ToString (Get data "sessionId")) as [room|e]; [|done].
  cbn. by rewrite (recipients_of_room jwt_verify (with_dates S w) sid socket).
Qed.

(** X4.  No handler ever subscribes a socket to a session room, so a
    [practice-update] reaches nobody: unless the room name "session-"
    followed by the session id happens to be the id of a connected socket,
    the event is emitted to the empty set of receivers. *)
Theorem practice_update_reaches_nobody
    (w : World) (sid : string) (socket : Socket) (data : JSValue) (session : string) :
  reachable clock jwt_verify w →
  sockets w !! sid = Some socket →
  RequireObjectCoercible data = Normal tt →
  ToString (Get data "sessionId") = Normal session →
  sockets w !! ("session-" +:+ session) = None →
  new_effects w (receive clock sid (practice_update_in data) w).2 =
    [Emit ∅ (practice_update (userId socket) (Get data "progress")
               (Get data "accuracy") (clock (dates w)))].
Proof.
  intros Hreach Hsid Hdata Hsession Hnone.
  pose proof (reachable_wf _ _ _ Hreach) as Hwf.
  rewrite (practice_update_spec w sid socket data) by done.
  rewrite Hdata, Hsession. cbn [snd].
  assert (members ("session-" +:+ session) w = ∅) as ->.
  { unfold members. destruct (rooms w !! ("session-" +:+ session)) as [ms|] eqn:Hms;
      [|done].
    destruct Hwf as [[_ Hr] _]. destruct (Hr _ _ Hms) as (_ & _ & [[? Hx]|Hx]).
    - congruence.
    - discriminate Hx. }
  apply new_effects_app. cbn. do 3 f_equal. set_solver.
Qed.

Lemma typing_general_spec (w : World) (sid : string) (socket : Socket)
    (data : JSValue) :
  wf clock w → sockets w !! sid = Some socket →
  RequireObjectCoercible data = Normal tt →
  receive clock sid (typing data) w =
    (Normal tt,
     with_trace
       (λ t, t ++ [Emit (recipients w (to_rooms (Get data "roomId")) [JStr sid])
                     (user_typing (userId socket) (clock (dates w)))])
       (with_dates S w)).
Proof.
  intros [Hnet _] Hsid Hdata. unfold receive. rewrite Hsid.
  assert (id socket = sid) as Hid
    by (by destruct Hnet as [Hs _]; destruct (Hs _ _ Hsid)).
  exec. by rewrite Hdata, Hid.
Qed.

(** X5.  The edges of [typing].  With an empty array as [roomId] the
    notice goes to every other connection of the server; with a [roomId]
    that is neither a string nor an array, or with none, it goes to nobody
    and nothing is logged; with no payload at all the destructuring error
    is logged and nothing is sent. *)
Theorem typing_edge_cases (w : World) (sid : string) (socket : Socket) :
  reachable clock jwt_verify w →
  sockets w !! sid = Some socket →
  (∀ data,
     Get data "roomId" = JArr [] →
     new_effects w (receive clock sid (typing data) w).2 =
       [Emit (dom (sockets w) ∖ {[sid]})
          (user_typing (userId socket) (clock (dates w)))]) ∧
  (∀ data,
     RequireObjectCoercible data = Normal tt →
     (∀ name, Get data "roomId" ≠ JStr name) →
     (∀ rs, Get data "roomId" ≠ JArr rs) →
     new_effects w (receive clock sid (typing data) w).2 =
       [Emit ∅ (user_typing (userId socket) (clock (dates w)))]) ∧
  (∀ data e,
     RequireObjectCoercible data = Throw e →
     new_effects w (receive clock sid (typing data) w).2 =
       [ConsoleError "Typing Indicator Error:" e]).
Proof.
  intros Hreach Hsid. pose proof (reachable_wf _ _ _ Hreach) as Hwf.
  assert (rooms w !! sid = Some {[sid]}) as Hown.
  { destruct Hwf as [[Hs _] _]. by destruct (Hs _ _ Hsid) as (_ & _ & ?). }
  split; [|split].
  - intros data Hroom.
    assert (RequireObjectCoercible data = Normal tt) as Hdata by (by destruct data).
    rewrite (typing_general_spec w sid socket data) by done.
    rewrite Hroom. cbn [snd to_rooms]. rewrite recipients_all_but by done.
    by apply new_effects_app.
  - intros data Hdata Hstr Harr.
    rewrite (typing_general_spec w sid socket data) by done. cbn [snd].
    apply new_effects_app. cbn. do 3 f_equal.
    unfold recipients.
    destruct (Get data "roomId") as [| |b|n|name|rs|fields]; cbn;
      first [ by destruct (Hstr name) | by destruct (Harr rs) | set_solver ].
  - intros data e Hdata. unfold receive. rewrite Hsid. exec. rewrite Hdata. cbn.
    by apply new_effects_app.
Qed.

(** X6.  Joining a group a second time changes no membership: the rooms
    are as after the first join.  The other members are notified again
    all the same. *)
Theorem joining_again_changes_no_membership
    (w : World) (sid : string) (socket : Socket) (groupId : JSValue) (group : string) :
  reachable clock jwt_verify w →
  sockets w !! sid = Some socket →
  ToString groupId = Normal group →
  let w1 := (receive clock sid (join_study_group groupId) w).2 in
  let w2 := (receive clock sid (join_study_group groupId) w1).2 in
  rooms w2 = rooms w1 ∧
  new_effects w1 w2 =
    [Emit (members ("group-" +:+ group) w ∖ {[sid]})
       (user_joined_group (userId socket) groupId (clock (S (dates w))));
     ConsoleLog ("User " +:+ userId socket +:+ " joined study group " +:+ group)].
Proof.
  intros Hreach Hsid Hstr w1 w2.
  pose proof (reachable_receive _ _ w sid (join_study_group groupId) Hreach) as Hreach1.
  fold w1 in Hreach1.
  assert (w1 = with_trace (λ t, t ++
              [Emit (members ("group-" +:+ group) w ∖ {[sid]})
                 (user_joined_group (userId socket) groupId (clock (dates w)));
               ConsoleLog ("User " +:+ userId socket +:+ " joined study group " +:+ group)])
            (with_dates S (with_rooms (adapter_add sid ("group-" +:+ group)) w)))
    as Hw1.
  { subst w1. by rewrite (join_study_group_spec clock jwt_verify w sid socket groupId group)
      by eauto using reachable_wf. }
  assert (sockets w1 !! sid = Some socket) as Hsid1 by (by rewrite Hw1).
  subst w2.
  rewrite (join_study_group_spec clock jwt_verify w1 sid socket groupId group)
    by eauto using reachable_wf.
  cbn [snd].
  assert (members ("group-" +:+ group) w1 = {[sid]} ∪ members ("group-" +:+ group) w)
    as Hmem.
  { rewrite Hw1. unfold members. cbn.
    by rewrite lookup_adapter_add, decide_True. }
  split.
  - cbn. unfold adapter_add at 1. fold (members ("group-" +:+ group) w1).
    rewrite Hmem, Hw1. cbn. unfold adapter_add.
    fold (members ("group-" +:+ group) w). rewrite insert_insert_eq.
    f_equal. set_solver.
  - apply new_effects_app. cbn. rewrite Hmem.
    assert (dates w1 = S (dates w)) as -> by (by rewrite Hw1).
    do 3 f_equal. set_solver.
Qed.

(** X7.  In every reachable state each registry entry belongs to an
    identity that has a connected socket: no entry outlives the last
    connection of its identity. *)
Theorem registry_entries_have_a_connection (w : World) (u : string) (e : PresenceEntry) :
  reachable clock jwt_verify w →
  activeUsers w !! u = Some e →
  ∃ sid socket, sockets w !! sid = Some socket ∧ userId socket = u.
Proof. intros Hreach. by apply (reachable_backed clock jwt_verify w Hreach). Qed.

(** X8.  No inbound event creates or removes a registry entry: the
    identities registered are the same before and after any event of any
    connection. *)
Theorem inbound_events_keep_the_registered_identities
    (w : World) (sid : string) (ev : InboundEvent) :
  dom (activeUsers (receive clock sid ev w).2) = dom (activeUsers w).
Proof.
  unfold receive. destruct (sockets w !! sid) as [socket|]; [|done].
  destruct ev as [g|data|data|data|]; exec.
  - by destruct (ToString g).
  - destruct (RequireObjectCoercible data); [|done].
    by destruct (ToString (Get data "groupId")).
  - destruct (RequireObjectCoercible data); [|done].
    by destruct (ToString (Get data "sessionId")).
  - by destruct (RequireObjectCoercible data).
  - destruct (activeUsers w !! userId socket) as [e|] eqn:He; [|done]. cbn.
    rewrite dom_insert_L. apply elem_of_dom_2 in He. set_solver.
Qed.

End RelayExtras.

(** * More of the service worker *)

Section WorkerProperties.

Import ServiceWorker Worker.

Lemma cache_match_cons (u k : string) (r : Response) (cache : list Entry) :
  cache_match u ((k, r) :: cache) =
    if decide (k = u) then Some r else cache_match u cache.
Proof.
  unfold cache_match. cbn. case_decide; [done|].
  by destruct (list_find (λ e : Entry, e.1 = u) cache) as [[i e]|].
Qed.

Lemma cache_match_app (u : string) (c1 c2 : list Entry) :
  cache_match u (c1 ++ c2) =
    match cache_match u c1 with
    | Some r => Some r
    | None => cache_match u c2
    end.
Proof.
  induction c1 as [|[k r] c1 IH]; [done|].
  rewrite <- app_comm_cons, !cache_match_cons. by case_decide.
Qed.

Lemma cache_match_delete (u k : string) (cache : list Entry) :
  cache_match u (cache_delete k cache) =
    if decide (u = k) then None else cache_match u cache.
Proof.
  unfold cache_delete. induction cache as [|[k' r] cache IH].
  - by case_decide.
  - rewrite filter_cons. cbn [fst].
    destruct (decide (k' ≠ k)) as [Hk'|Hk'].
    + rewrite !cache_match_cons, IH. repeat case_decide; congruence.
    + rewrite IH, cache_match_cons. apply dec_stable in Hk'.
      repeat case_decide; congruence.
Qed.

(** After a put the cache answers the request with the response put, and
    other requests as before. *)
Lemma cache_match_put (u k : string) (r : Response) (cache : list Entry) :
  partial r = false →
  cache_match u (cache_put k r cache) =
    if decide (u = k) then Some r else cache_match u cache.
Proof.
  intros Hwhole. rewrite cache_put_whole by done.
  rewrite cache_match_app, cache_match_delete, cache_match_cons.
  case_decide as Hu; [by rewrite decide_True|].
  rewrite decide_False by done. by destruct (cache_match u cache).
Qed.

Lemma cache_of_opened (name name' : string) (caches : gmap string (list Entry)) :
  cache_of name' (opened name caches) = cache_of name' caches.
Proof.
  unfold cache_of, opened. destruct (caches !! name) as [c|] eqn:Hc; [done|].
  rewrite lookup_insert. case_decide; [|done]. subst. by rewrite Hc.
Qed.

Lemma cache_of_stored (name request : string) (response : Response)
    (caches : gmap string (list Entry)) :
  cache_of name (stored name request response caches) =
    cache_put request response (cache_of name caches).
Proof. unfold stored, cache_of at 1. by rewrite lookup_insert_eq. Qed.

(** X9.  How the [fetch] listener routes.  It leaves a request alone
    exactly when its method is not GET or its protocol is
    chrome-extension.  Otherwise a path under /api/ always goes to the API
    strategy, whatever its mode and its ending; and any other path that
    ends in a slash, the root among them, goes to the static strategy
    (cache first) even when the request is a navigation. *)
Theorem fetch_routing (request : Request) :
  (route request = NotHandled ↔
     method request ≠ "GET" ∨ protocol request = "chrome-extension:") ∧
  (method request = "GET" → protocol request ≠ "chrome-extension:" →
   startsWith (pathname request) "/api/" = true →
   route request = ApiRoute) ∧
  (method request = "GET" → protocol request ≠ "chrome-extension:" →
   startsWith (pathname request) "/api/" = false →
   endsWith (pathname request) "/" = true →
   route request = StaticRoute).
Proof.
  unfold route. split; [|split].
  - destruct (String.eqb_spec (method request) "GET") as [Hm|Hm]; cbn [negb].
    + destruct (String.eqb_spec (protocol request) "chrome-extension:") as [Hp|Hp].
      * split; [by right | done].
      * split; [|by intros [?|?]].
        by repeat case_match.
    + split; [by left | done].
  - intros Hm Hp Hapi.
    rewrite Hm, (proj2 (String.eqb_neq _ _) Hp), Hapi. done.
  - intros Hm Hp Hapi Hslash.
    rewrite Hm, (proj2 (String.eqb_neq _ _) Hp), Hapi.
    cbn [String.eqb Ascii.eqb Bool.eqb negb STATIC_ASSETS existsb].
    by rewrite Hslash.
Qed.

Local Abbreviation listed request :=
  (existsb (λ endpoint, startsWith (pathname request) endpoint) API_ENDPOINTS).

Lemma opened_found (name u : string) (r : Response)
    (caches : gmap string (list Entry)) :
  cache_match u (cache_of name caches) = Some r → opened name caches = caches.
Proof.
  unfold cache_of, opened. by destruct (caches !! name).
Qed.

Lemma stored_partial (name request : string) (response : Response)
    (cache : list Entry) (caches : gmap string (list Entry)) :
  partial response = true → caches !! name = Some cache →
  stored name request response caches = caches.
Proof.
  intros Hpartial Hname. unfold stored, cache_of.
  rewrite cache_put_partial by done. rewrite Hname. cbn. by apply insert_id.
Qed.

Lemma opened_lookup (name : string) (caches : gmap string (list Entry)) :
  opened name caches !! name = Some (cache_of name caches).
Proof.
  unfold opened, cache_of. destruct (caches !! name) as [c|] eqn:Hc; cbn.
  - by rewrite Hc.
  - by rewrite lookup_insert_eq.
Qed.

(** X10.  The cache-first strategy of the listed API endpoints: when the
    API cache holds a response for the request, that response is served
    whatever the network does, even when it fails.  The fetch goes on in
    the background: an [ok] response that is not partial replaces the
    cached one once its put has settled; any other response, a partial one
    (status 206) among them, changes nothing, and a network failure is
    only logged. *)
Theorem api_cache_answers_first
    (request : Request) (caches : gmap string (list Entry)) (cached : Response)
    (fetched : Fetch) :
  listed request = true →
  cache_match (url request) (cache_of API_CACHE caches) = Some cached →
  let h := handleAPIRequest request fetched caches in
  served h = Some (FromCache cached) ∧
  match fetched with
  | Fetched response =>
      console h = [] ∧
      if ok response && negb (partial response) then
        cache_match (url request) (cache_of API_CACHE (caches_after h)) = Some response
      else caches_after h = caches
  | NetworkError =>
      caches_after h = caches ∧ console h = ["SW: Background fetch failed:"]
  end.
Proof.
  intros Hlisted Hcached h. subst h. unfold handleAPIRequest.
  rewrite Hlisted. cbn zeta. rewrite (opened_found _ _ _ _ Hcached), Hcached.
  cbn [served caches_after console]. split; [done|].
  destruct fetched as [response|]; cbn; [|done].
  split; [done|]. destruct (ok response); [|done].
  destruct (partial response) eqn:Hpartial; cbn [andb negb].
  - pose proof (opened_lookup API_CACHE caches) as Hopen.
    rewrite (opened_found _ _ _ _ Hcached) in Hopen.
    by apply (stored_partial _ _ _ _ _ Hpartial Hopen).
  - by rewrite cache_of_stored, cache_match_put, decide_True.
Qed.

(** X11.  Once a listed API endpoint has been fetched with an [ok]
    response that is not partial, and the put has settled, a request for
    it is served that response from the cache, whatever the network does
    then.  When nothing was cached before, a request that comes before
    the put has settled finds nothing and goes to the network again; and
    a partial response (status 206) is never stored: the storage stays as
    opening the cache left it. *)
Theorem api_response_is_served_from_cache_next_time
    (request : Request) (caches : gmap string (list Entry)) (response : Response)
    (fetched : Fetch) :
  listed request = true →
  ok response = true →
  let first := handleAPIRequest request (Fetched response) caches in
  (partial response = false →
   served (handleAPIRequest request fetched (caches_after first)) =
     Some (FromCache response)) ∧
  (cache_match (url request) (cache_of API_CACHE caches) = None →
   served (handleAPIRequest request fetched (opened API_CACHE caches)) =
     Some (match fetched with
           | Fetched again => FromNetwork again
           | NetworkError => api_offline
           end) ∧
   (partial response = true → caches_after first = opened API_CACHE caches)).
Proof.
  intros Hlisted Hok first. split.
  - intros Hwhole.
    assert (cache_match (url request) (cache_of API_CACHE (caches_after first))
            = Some response) as Hnow.
    { subst first. unfold handleAPIRequest. rewrite Hlisted. cbn zeta.
      destruct (cache_match (url request) (cache_of API_CACHE (opened API_CACHE caches)));
        cbn; rewrite Hok; by rewrite cache_of_stored, cache_match_put, decide_True. }
    unfold handleAPIRequest at 1. rewrite Hlisted. cbn zeta.
    by rewrite (opened_found _ _ _ _ Hnow), Hnow.
  - intros Hnone.
    assert (cache_match (url request) (cache_of API_CACHE (opened API_CACHE caches))
            = None) as Hnone' by (by rewrite cache_of_opened).
    assert (opened API_CACHE (opened API_CACHE caches) = opened API_CACHE caches) as Hidem.
    { unfold opened at 1. by rewrite opened_lookup. }
    split.
    + unfold handleAPIRequest. rewrite Hlisted. cbn zeta. rewrite Hidem, Hnone'.
      by destruct fetched.
    + intros Hpartial. subst first. unfold handleAPIRequest. rewrite Hlisted.
      cbn zeta. rewrite Hnone'. cbn [caches_after]. rewrite Hok.
      by apply (stored_partial _ _ _ _ _ Hpartial (opened_lookup API_CACHE caches)).
Qed.

(** X12.  What the API strategy never stores.  An endpoint that is not
    listed is fetched and never touches a cache.  For a listed endpoint
    with nothing cached, a response that is not [ok] is handed on but not
    stored, and a network failure is answered with the 503 JSON body and
    stores nothing either. *)
Theorem api_failures_are_not_cached
    (request : Request) (caches : gmap string (list Entry)) :
  (listed request = false →
   ∀ fetched,
     caches_after (handleAPIRequest request fetched caches) = caches ∧
     served (handleAPIRequest request fetched caches) =
       Some (match fetched with
             | Fetched response => FromNetwork response
             | NetworkError => api_offline
             end)) ∧
  (listed request = true →
   cache_match (url request) (cache_of API_CACHE caches) = None →
   (∀ response, ok response = false →
      let h := handleAPIRequest request (Fetched response) caches in
      served h = Some (FromNetwork response) ∧
      cache_match (url request) (cache_of API_CACHE (caches_after h)) = None) ∧
   (let h := handleAPIRequest request NetworkError caches in
    served h = Some api_offline ∧
    cache_match (url request) (cache_of API_CACHE (caches_after h)) = None)).
Proof.
  split.
  - intros Hlisted fetched. unfold handleAPIRequest. rewrite Hlisted.
    by destruct fetched.
  - intros Hlisted Hnone.
    assert (cache_match (url request) (cache_of API_CACHE (opened API_CACHE caches))
            = None) as Hnone' by (by rewrite cache_of_opened).
    split.
    + intros response Hok h. subst h. unfold handleAPIRequest.
      rewrite Hlisted. cbn zeta. rewrite Hnone'. cbn. by rewrite Hok.
    + unfold handleAPIRequest. rewrite Hlisted. cbn zeta. by rewrite Hnone'.
Qed.





Section Scope.

Context (origin : string).


(** X14.  The two fallbacks when nothing is cached.  A navigation is
    always tried on the network first and its response is handed on
    unexamined, storing nothing; when the network fails and the static
    cache has no index page the answer is the 503 page "App not available
    offline".  A static asset that is neither cached nor reachable is
    answered with the 503 text "Asset not available offline", unless its
    URL contains ".html" or ends in a slash: then the handler resolves to
    whatever the cache holds for the index page, which is nothing at all
    when the index page is not cached. *)
Theorem offline_fallbacks
    (request : Request) (caches : gmap string (list Entry)) :
  (∀ response,
     served (handleNavigationRequest origin request (Fetched response) caches)
       = Some (FromNetwork response) ∧
     caches_after (handleNavigationRequest origin request (Fetched response) caches)
       = caches) ∧
  (cache_match (resolve origin "/index.html") (cache_of STATIC_CACHE caches) = None →
   served (handleNavigationRequest origin request NetworkError caches)
     = Some (Made 503 "App not available offline" (Some "text/html")) ∧
   (cache_match (url request) (cache_of STATIC_CACHE caches) = None →
    served (handleStaticRequest origin request NetworkError caches) =
      if includes (url request) ".html" || endsWith (url request) "/" then None
      else Some (Made 503 "Asset not available offline" None))).
Proof.
  split; [done|]. intros Hindex. split.
  - unfold handleNavigationRequest. cbn zeta. cbn [served].
    by rewrite cache_of_opened, Hindex.
  - intros Hmiss. unfold handleStaticRequest. cbn zeta.
    rewrite !cache_of_opened, Hmiss, Hindex. cbn [served].
    by destruct (includes (url request) ".html" || endsWith (url request) "/").
Qed.

End Scope.

(** X15.  [activate] keeps a cache exactly when its name is one of the
    three current names, with its content untouched, and deletes every
    other cache; activating again changes nothing. *)
Theorem activate_keeps_the_current_caches (caches : gmap string (list Entry)) :
  (∀ name cache,
     activate caches !! name = Some cache ↔
     caches !! name = Some cache ∧
     (name = STATIC_CACHE ∨ name = DYNAMIC_CACHE ∨ name = API_CACHE)) ∧
  activate (activate caches) = activate caches.
Proof.
  assert (∀ name cache,
            activate caches !! name = Some cache ↔
            caches !! name = Some cache ∧
            (name = STATIC_CACHE ∨ name = DYNAMIC_CACHE ∨ name = API_CACHE)) as Hkeep.
  { intros name cache. unfold activate. rewrite map_lookup_filter_Some. cbn [fst].
    unfold current. rewrite !orb_true_iff, !String.eqb_eq. tauto. }
  split; [done|].
  apply map_eq. intros name. apply option_eq. intros cache.
  unfold activate at 1. rewrite map_lookup_filter_Some. cbn [fst].
  split; [tauto|]. intros Hin. split; [done|].
  apply Hkeep in Hin as [_ Hname]. unfold current.
  rewrite !orb_true_iff, !String.eqb_eq. tauto.
Qed.

Lemma cache_of_limit_in (name name' : string) (maxItems : nat)
    (caches : gmap string (list Entry)) :
  cache_of name' (limit_in name maxItems caches) =
    if decide (name = name') then limitCacheSize maxItems (cache_of name caches)
    else cache_of name' caches.
Proof.
  unfold limit_in. cbn zeta. unfold cache_of at 1. rewrite lookup_insert.
  case_decide; [by rewrite cache_of_opened|].
  fold (cache_of name' (opened name caches)). by rewrite cache_of_opened.
Qed.

(** X16.  [performCacheCleanup] leaves the dynamic cache with its thirty
    newest entries and the API cache with its twenty newest, in their
    order, or with all of them when there are fewer; the content of every
    other cache is untouched. *)
Theorem cleanup_keeps_the_newest (caches : gmap string (list Entry)) :
  NoDup (cache_keys (cache_of DYNAMIC_CACHE caches)) →
  NoDup (cache_keys (cache_of API_CACHE caches)) →
  let cleaned := performCacheCleanup caches in
  cache_of DYNAMIC_CACHE cleaned =
    drop (length (cache_of DYNAMIC_CACHE caches) - 30) (cache_of DYNAMIC_CACHE caches) ∧
  cache_of API_CACHE cleaned =
    drop (length (cache_of API_CACHE caches) - 20) (cache_of API_CACHE caches) ∧
  (length (cache_of DYNAMIC_CACHE cleaned) ≤ 30)%nat ∧
  (length (cache_of API_CACHE cleaned) ≤ 20)%nat ∧
  (∀ name, name ≠ DYNAMIC_CACHE → name ≠ API_CACHE →
           cache_of name cleaned = cache_of name caches).
Proof.
  intros Hdyn Hapi cleaned. subst cleaned. unfold performCacheCleanup.
  assert (API_CACHE ≠ DYNAMIC_CACHE) as Hne by (by vm_compute).
  destruct (limitCacheSize_fifo 30 _ Hdyn) as [Hd Hdlen].
  destruct (limitCacheSize_fifo 20 _ Hapi) as [Ha Halen].
  assert (cache_of DYNAMIC_CACHE (limit_in API_CACHE 20 (limit_in DYNAMIC_CACHE 30 caches))
          = limitCacheSize 30 (cache_of DYNAMIC_CACHE caches)) as Hd'.
  { rewrite cache_of_limit_in, decide_False by done.
    by rewrite cache_of_limit_in, decide_True. }
  assert (cache_of API_CACHE (limit_in API_CACHE 20 (limit_in DYNAMIC_CACHE 30 caches))
          = limitCacheSize 20 (cache_of API_CACHE caches)) as Ha'.
  { rewrite cache_of_limit_in, decide_True by done.
    by rewrite cache_of_limit_in, decide_False. }
  rewrite Hd', Ha'. split; [done|]. split; [done|].
  split; [lia|]. split; [lia|].
  intros name Hn1 Hn2. by rewrite !cache_of_limit_in, !decide_False.
Qed.

Lemma cache_match_absent (request : string) (cache : list Entry) :
  request ∉ cache_keys cache → cache_match request cache = None.
Proof.
  induction cache as [|[k r] cache IH]; [done|]. intros Hk. cbn in Hk.
  rewrite cache_match_cons, decide_False by set_solver. apply IH. set_solver.
Qed.

Lemma trim_and_put_fresh (schedule : Schedule) (request : string)
    (response : Response) (cache : list Entry) :
  NoDup (cache_keys cache) → request ∉ cache_keys cache →
  partial response = false →
  ∃ k, trim_and_put schedule request response cache =
         drop k cache ++ [(request, response)].
Proof.
  intros Hnd Hfresh Hwhole. destruct schedule as [|n].
  - unfold trim_and_put.
    pose proof (cache_put_fresh request response cache Hwhole Hfresh) as Hput.
    assert (NoDup (cache_keys (cache ++ [(request, response)]))) as Hnd'.
    { unfold cache_keys. rewrite fmap_app. apply NoDup_app.
      split; [done|]. split; [|apply NoDup_singleton].
      intros k Hk ->%list_elem_of_singleton. done. }
    rewrite Hput, (proj1 (limitCacheSize_fifo DYNAMIC_LIMIT _ Hnd')).
    rewrite length_app. cbn [length].
    exists (length cache + 1 - DYNAMIC_LIMIT). apply drop_app_le.
    unfold DYNAMIC_LIMIT. lia.
  - rewrite (proj1 (put_after_keys n request response cache Hnd Hfresh Hwhole)).
    rewrite (proj1 (limitCacheSize_fifo DYNAMIC_LIMIT _ Hnd)). by eexists.
Qed.

Lemma cache_keys_drop (k : nat) (u : string) (cache : list Entry) :
  u ∈ cache_keys (drop k cache) → u ∈ cache_keys cache.
Proof.
  unfold cache_keys. intros (e & -> & Hin)%list_elem_of_fmap.
  apply list_elem_of_fmap. exists e. split; [done|]. by apply (subseteq_drop k).
Qed.

(** X17.  A dynamic response that was fetched [ok] for a URL not yet
    cached is what the same URL gets when the network is gone, however
    the put and the trimming of its handler were scheduled, no other
    handler operating on the cache in between; and the offline request
    changes nothing in the cache.  The exception is a partial response
    (status 206): the cache does not take it, and the offline request is
    answered with the 503 text "Resource not available offline". *)
Theorem dynamic_response_is_replayed_offline
    (schedule schedule' : Schedule) (request : string) (response : Response)
    (cache : list Entry) :
  NoDup (cache_keys cache) →
  request ∉ cache_keys cache →
  ok response = true →
  let cache' := (handleDynamicRequest schedule request (Fetched response) cache).2 in
  handleDynamicRequest schedule' request NetworkError cache' =
    (if partial response
     then {| status := 503; body := "Resource not available offline" |}
     else response,
     cache').
Proof.
  intros Hnd Hfresh Hok cache'. subst cache'.
  cbn [handleDynamicRequest snd]. rewrite Hok.
  destruct (partial response) eqn:Hpartial.
  - rewrite trim_and_put_partial by done.
    rewrite (proj1 (limitCacheSize_fifo DYNAMIC_LIMIT _ Hnd)).
    rewrite cache_match_absent; [done|].
    intros Hin. by apply Hfresh, (cache_keys_drop _ _ _ Hin).
  - destruct (trim_and_put_fresh schedule request response cache Hnd Hfresh Hpartial)
      as [k ->].
    rewrite cache_match_app, cache_match_absent.
    + by rewrite cache_match_cons, decide_True.
    + intros Hin. by apply Hfresh, (cache_keys_drop _ _ _ Hin).
Qed.

(** X18.  The eviction on its own is first in, first out: on a cache with
    distinct URLs, [limitCacheSize] keeps exactly the [maxItems] entries
    put last, in their order, and leaves a cache within the limit as it
    is. *)
Theorem limitCacheSize_keeps_the_newest (maxItems : nat) (cache : list Entry) :
  NoDup (cache_keys cache) →
  limitCacheSize maxItems cache = drop (length cache - maxItems) cache ∧
  length (limitCacheSize maxItems cache) = min maxItems (length cache) ∧
  ((length cache ≤ maxItems)%nat → limitCacheSize maxItems cache = cache).
Proof.
  intros Hnd. destruct (limitCacheSize_fifo maxItems cache Hnd) as [Heq Hlen].
  split; [done|]. split; [done|]. intros Hle. rewrite Heq.
  by replace (length cache - maxItems) with 0 by lia.
Qed.

Local Abbreviation run requests :=
  (foldl (λ p op, p ≫= operate requests op)).

(** The oldest keys left to handler [0] are deleted one after the other. *)
Lemma run_deletes (requests : list Entry) (k : nat) (p : Pool) (keys : list string) :
  trimming p !! 0 = Some keys → (k ≤ length keys)%nat →
  run requests (Some p) (replicate k (DeleteKey 0 0)) =
    Some {| entries := delete_all (take k keys) (entries p);
            trimming := <[0 := drop k keys]> (trimming p);
            landed := landed p |}.
Proof.
  revert p keys. induction k as [|k IH]; intros p keys Hkeys Hk.
  - cbn. rewrite drop_0, insert_id by done. by destruct p.
  - destruct keys as [|key keys]; [cbn in Hk; lia|].
    cbn [replicate foldl mbind option_bind operate]. rewrite Hkeys.
    cbn [lookup list_lookup delete list_delete].
    rewrite (IH _ keys); cbn [trimming entries landed].
    + by rewrite insert_insert_eq.
    + by rewrite lookup_insert_eq.
    + cbn in Hk. lia.
Qed.

Lemma take_min_length {A} (n : nat) (l : list A) :
  take (min n (length l)) l = take n l ∧ drop (min n (length l)) l = drop n l.
Proof.
  destruct (Nat.le_ge_cases n (length l)) as [Hle|Hge].
  - by rewrite Nat.min_l.
  - rewrite Nat.min_r by done. by rewrite !take_ge, !drop_ge.
Qed.

(** X23.  [trim_and_put] is one of the interleavings: running the
    operations of a single handler in the order of its schedule, on their
    own, is a complete run of the overlapping model and leaves the cache
    [trim_and_put] computes. *)
Theorem a_handler_alone_is_one_interleaving
    (schedule : Schedule) (request : string) (response : Response)
    (cache : list Entry) :
  ∃ p, overlapped [(request, response)] (alone schedule request response cache) cache
         = Some p ∧
       settled [(request, response)] p = true ∧
       entries p = trim_and_put schedule request response cache.
Proof.
  unfold overlapped. destruct schedule as [|n]; unfold alone, trim_and_put; cbn zeta.
  - rewrite foldl_app. cbn [foldl mbind option_bind operate lookup list_lookup].
    cbn [landed trimming entries length]. rewrite bool_decide_false by set_solver.
    cbn [mbind option_bind operate trimming entries landed length].
    rewrite bool_decide_true by lia. rewrite bool_decide_true by done.
    cbn [andb]. cbn [trimming entries landed].
    erewrite run_deletes; [|cbn [trimming]; apply lookup_insert_eq|done].
    eexists. split; [done|]. cbn [entries trimming landed]. split.
    + cbn. rewrite lookup_insert_eq, drop_all.
      rewrite bool_decide_true by done. rewrite bool_decide_true by set_solver. done.
    + by rewrite firstn_all.
  - set (keys := keysToDelete DYNAMIC_LIMIT cache).
    destruct (take_min_length n keys) as [Htake Hdrop].
    cbn [app foldl mbind option_bind operate]. cbn [trimming entries landed length].
    rewrite bool_decide_true by lia. rewrite bool_decide_true by done.
    cbn [andb]. fold keys.
    rewrite !foldl_app.
    erewrite run_deletes; [|cbn [trimming]; apply lookup_insert_eq|lia].
    cbn [trimming entries landed]. rewrite Htake, Hdrop.
    cbn [foldl mbind option_bind operate lookup list_lookup landed].
    rewrite bool_decide_false by set_solver.
    cbn [mbind option_bind trimming entries landed].
    erewrite run_deletes;
      [|cbn [trimming]; apply lookup_insert_eq|rewrite length_drop; lia].
    eexists. split; [done|]. cbn [entries trimming landed]. split.
    + cbn. rewrite lookup_insert_eq.
      rewrite (drop_ge (drop n keys)) by (rewrite length_drop; lia).
      rewrite bool_decide_true by done. rewrite bool_decide_true by set_solver. done.
    + by rewrite take_ge by (rewrite length_drop; lia).
Qed.

(** While the cache is within its limit, a handler that reads the keys
    finds nothing to delete. *)
Lemma run_reads (requests cache : list Entry) (j : nat) :
  (j ≤ length requests)%nat → (length cache ≤ DYNAMIC_LIMIT)%nat →
  ∃ p, run requests (Some {| entries := cache; trimming := ∅; landed := ∅ |})
         (ReadKeys <$> seq 0 j) = Some p ∧
       entries p = cache ∧ landed p = ∅ ∧
       ∀ i, trimming p !! i = if decide (i < j)%nat then Some [] else None.
Proof.
  intros Hj Hlen. induction j as [|j IH].
  - eexists. split; [done|]. cbn. split; [done|]. split; [done|].
    intros i. rewrite lookup_empty. by rewrite decide_False by lia.
  - destruct IH as (p & Hrun & Hentries & Hlanded & Htrim); [lia|].
    rewrite seq_S, fmap_app, foldl_app, Hrun.
    cbn [fmap list_fmap foldl mbind option_bind operate plus].
    rewrite bool_decide_true by lia.
    rewrite bool_decide_true by (rewrite Htrim; by rewrite decide_False by lia).
    cbn [andb]. eexists. split; [done|]. cbn [entries trimming landed].
    split; [done|]. split; [done|].
    intros i. rewrite Hentries.
    assert (keysToDelete DYNAMIC_LIMIT cache = []) as ->.
    { unfold keysToDelete, cache_keys. cbn zeta. rewrite length_fmap.
      by rewrite (proj2 (Nat.ltb_ge _ _)) by exact Hlen. }
    rewrite lookup_insert. case_decide as Hi.
    + subst i. by rewrite decide_True by lia.
    + rewrite Htrim. repeat case_decide; (done || lia).
Qed.

(** Puts of new URLs pile up in the order they land. *)
Lemma run_puts (requests cache : list Entry) (p0 : Pool) (j : nat) :
  (j ≤ length requests)%nat →
  NoDup (cache_keys (cache ++ requests)) →
  (∀ request response, (request, response) ∈ requests → partial response = false) →
  entries p0 = cache → landed p0 = ∅ →
  ∃ p, run requests (Some p0) (Put <$> seq 0 j) = Some p ∧
       entries p = cache ++ take j requests ∧
       trimming p = trimming p0 ∧
       ∀ i, i ∈ landed p ↔ (i < j)%nat.
Proof.
  intros Hj Hnd Hwhole Hentries Hlanded. induction j as [|j IH].
  - exists p0. split; [done|]. rewrite take_0, app_nil_r.
    split; [done|]. split; [done|]. intros i. rewrite Hlanded. set_solver by lia.
  - destruct IH as (p & Hrun & Hp & Htrim & Hin); [lia|].
    rewrite seq_S, fmap_app, foldl_app, Hrun.
    cbn [fmap list_fmap foldl mbind option_bind operate plus].
    destruct (lookup_lt_is_Some_2 requests j) as [[request response] Hreq]; [lia|].
    rewrite Hreq. rewrite bool_decide_false by (rewrite Hin; lia).
    eexists. split; [done|]. cbn [entries trimming landed fst snd].
    split; [|split; [done|]].
    + rewrite Hp, (take_S_r _ _ _ Hreq), app_assoc.
      apply cache_put_fresh.
      * apply (Hwhole request). by eapply list_elem_of_lookup_2.
      * rewrite <- (take_drop_middle _ _ _ Hreq), app_assoc in Hnd.
        unfold cache_keys in Hnd. rewrite fmap_app in Hnd.
        apply NoDup_app in Hnd as (_ & Hdisj & _).
        intros Hk. apply (Hdisj request Hk). cbn. set_solver.
    + intros i. rewrite elem_of_union, elem_of_singleton, Hin. lia.
Qed.

(** X19.  The limit of the dynamic cache holds, up to one entry, only for
    a handler whose cache operations no other handler interleaves with.
    Handled alone, a caching step for a URL not yet cached leaves at most
    fifty-one entries, whatever the size before and however the put and
    the trimming were scheduled, and the URLs stay distinct.  With
    handlers in flight together nothing bounds the cache: when each of
    them reads the keys of a cache within the limit before the put of any
    of them lands, none of them deletes anything, and the cache ends with
    all their entries on top, one more per handler. *)
Theorem dynamic_cache_limit_holds_only_without_overlap :
  (∀ schedule request response cache,
     NoDup (cache_keys cache) →
     request ∉ cache_keys cache →
     (length (trim_and_put schedule request response cache) ≤ S DYNAMIC_LIMIT)%nat ∧
     NoDup (cache_keys (trim_and_put schedule request response cache))) ∧
  (∀ requests cache,
     NoDup (cache_keys (cache ++ requests)) →
     (length cache ≤ DYNAMIC_LIMIT)%nat →
     (∀ request response, (request, response) ∈ requests → partial response = false) →
     ∃ p, overlapped requests (reads_first (length requests)) cache = Some p ∧
          settled requests p = true ∧
          entries p = cache ++ requests ∧
          length (entries p) = (length cache + length requests)%nat).
Proof.
  split.
  - intros schedule request response cache Hnd Hfresh.
    destruct (partial response) eqn:Hpartial.
    { rewrite trim_and_put_partial by done.
      destruct (limitCacheSize_fifo DYNAMIC_LIMIT cache Hnd) as [Heq Hlen].
      split; [lia|]. rewrite Heq.
      eapply sublist_NoDup; [exact Hnd|]. apply fmap_sublist, sublist_drop. }
    split.
    + destruct schedule as [|n].
      * pose proof (put_before_keys request response cache Hnd). lia.
      * rewrite (proj2 (put_after_keys n request response cache Hnd Hfresh Hpartial)).
        lia.
    + destruct (trim_and_put_fresh schedule request response cache Hnd Hfresh Hpartial)
        as [k ->].
      unfold cache_keys. rewrite fmap_app. apply NoDup_app. split; [|split].
      * eapply sublist_NoDup; [exact Hnd|]. apply fmap_sublist, sublist_drop.
      * intros u Hu Hu'%list_elem_of_singleton. cbn in Hu'. subst u. apply Hfresh.
        by apply (cache_keys_drop k).
      * apply NoDup_singleton.
  - intros requests cache Hnd Hlen Hwhole.
    destruct (run_reads requests cache (length requests)) as (p1 & Hrun1 & He1 & Hl1 & Ht1);
      [done|done|].
    destruct (run_puts requests cache p1 (length requests)) as (p2 & Hrun2 & He2 & Ht2 & Hl2);
      [done|done|done|done|done|].
    exists p2. unfold overlapped, reads_first. rewrite foldl_app, Hrun1, Hrun2.
    rewrite firstn_all in He2.
    split; [done|]. split; [|split; [done|by rewrite He2, length_app]].
    unfold settled. apply forallb_forall. intros i [_ Hi]%in_seq.
    rewrite Ht2, Ht1, decide_True by lia.
    rewrite bool_decide_true by done. rewrite bool_decide_true by (apply Hl2; lia).
    done.
Qed.

End WorkerProperties.

(** * The HTTP gate and the client's queue *)

Section HttpProperties.

Import Http.

Context (clock : nat → Z) (jwt_verify : string → Completion Decoded).

Lemma split_space_spaceless (s : string) :
  spaceless s = true → split_space s = [s].
Proof.
  induction s as [|c s IH]; [done|]. cbn.
  intros [Hc Hs]%andb_true_iff. apply negb_true_iff in Hc. rewrite Hc.
  by rewrite IH.
Qed.

Lemma split_space_app (a b : string) :
  spaceless a = true →
  split_space (a +:+ " " +:+ b) = a :: split_space b.
Proof.
  induction a as [|c a IH]; [done|].
  change (String c a +:+ " " +:+ b) with (String c (a +:+ " " +:+ b)). cbn.
  intros [Hc Ha]%andb_true_iff. apply negb_true_iff in Hc. rewrite Hc.
  by rewrite IH.
Qed.

Lemma bearer_nonempty (c : Ascii.ascii) (rest : string) :
  bearer (Some (String c rest)) =
    match split_space (String c rest) !! 1 with
    | Some token => JStr token
    | None => JUndefined
    end.
Proof. done. Qed.

(** X21.  How the token is read from the Authorization header.  The
    header is cut at its spaces and the second piece is the token: with
    one word before a single space and a token without spaces, the token
    comes out intact, whatever the word is ("Bearer" is not required, the
    empty word will do).  A header that is missing, empty or a single word
    gives no token, and so does a header with two spaces after the word,
    whose second piece is empty. *)
Theorem bearer_reads_the_second_word :
  (∀ scheme token,
     spaceless scheme = true → spaceless token = true →
     bearer (Some (scheme +:+ " " +:+ token)) = JStr token) ∧
  (∀ header, spaceless header = true → truthy (bearer (Some header)) = false) ∧
  truthy (bearer None) = false ∧
  (∀ scheme rest,
     spaceless scheme = true →
     truthy (bearer (Some (scheme +:+ "  " +:+ rest))) = false).
Proof.
  split; [|split; [|split]].
  - intros scheme token Hscheme Htoken.
    assert (∃ c rest, scheme +:+ " " +:+ token = String c rest) as (c & rest & Heq)
      by (destruct scheme; by eexists _, _).
    rewrite Heq, bearer_nonempty, <- Heq.
    by rewrite split_space_app, split_space_spaceless.
  - intros [|c rest] Hheader; [done|].
    by rewrite bearer_nonempty, split_space_spaceless.
  - done.
  - intros scheme rest Hscheme.
    assert (∃ c tail, scheme +:+ "  " +:+ rest = String c tail) as (c & tail & Heq)
      by (destruct scheme; by eexists _, _).
    rewrite Heq, bearer_nonempty, <- Heq.
    change (scheme +:+ "  " +:+ rest) with (scheme +:+ " " +:+ (" " +:+ rest)).
    by rewrite split_space_app.
Qed.

(** X20.  The three outcomes of [authenticateToken].  Without a token the
    request is answered 401 and nothing else happens; with a token that
    does not verify it is answered 403 and nothing else happens; with a
    token that verifies the request goes on with the decoded identity,
    after the last-active update has been issued when the user model
    exists.  Whether the store fulfils or rejects that update makes no
    difference to the outcome or to what is logged; the registry of the
    relay is never touched. *)
Theorem authenticateToken_outcomes
    (authHeader : option string) (stored : bool) (w : World) :
  let token := bearer authHeader in
  let result := authenticateToken clock jwt_verify authHeader stored w in
  (truthy token = false →
     result = (Normal (Respond 401 "Access token required"), w)) ∧
  (truthy token = true → ∀ e, verify jwt_verify token = Throw e →
     result = (Normal (Respond 403 "Invalid or expired token"), w)) ∧
  (truthy token = true → ∀ d, verify jwt_verify token = Normal d →
     result.1 = Normal (Next d) ∧
     activeUsers result.2 = activeUsers w ∧
     sockets result.2 = sockets w ∧
     new_effects w result.2 =
       (if User w then
          [Query {| db_id := d_userId d; db_isOnline := true;
                    db_lastActive := clock (dates w) |}]
        else [])).
Proof.
  intros token result. subst token result. unfold authenticateToken.
  split; [|split].
  - intros Hfalsy. exec. by rewrite Hfalsy.
  - intros Htruthy e He. exec. by rewrite Htruthy, He.
  - intros Htruthy d Hd. exec. rewrite Htruthy, Hd. cbn.
    destruct (User w) eqn:HU; cbn.
    + destruct stored; cbn; (repeat split; [by apply new_effects_app]).
    + repeat split. by apply new_effects_none.
Qed.

End HttpProperties.

Section ClientProperties.

Import Client.

Lemma drain_app (queue emitted : list (string * JSValue)) :
  drain queue emitted = emitted ++ queue.
Proof.
  revert emitted. induction queue as [|m queue IH]; intros emitted; cbn.
  - by rewrite app_nil_r.
  - by rewrite IH, <- app_assoc.
Qed.

Lemma emit_all_offline (s : SocketService) (messages : list (string * JSValue)) :
  connected s = false →
  foldl (λ s (m : string * JSValue), emit m.1 m.2 s) s messages =
    {| connected := false; messageQueue := messageQueue s ++ messages;
       emitted := emitted s |}.
Proof.
  revert s. induction messages as [|[ev d] messages IH]; intros s Hoff.
  - cbn. rewrite app_nil_r. destruct s. cbn in Hoff. by subst.
  - cbn [foldl fst snd]. rewrite IH.
    + unfold emit. rewrite Hoff. cbn. by rewrite <- app_assoc.
    + unfold emit. by rewrite Hoff.
Qed.

(** X22.  What the client emits while its socket is not connected is kept
    back and nothing is sent.  At the next [connect] all of it is emitted,
    after what was emitted before and in the order it was handed in, the
    queue is empty again, and from then on messages are emitted
    directly. *)
Theorem queued_messages_are_flushed_in_order
    (s : SocketService) (messages : list (string * JSValue)) :
  connected s = false →
  let offline := foldl (λ s (m : string * JSValue), emit m.1 m.2 s) s messages in
  let online := on_connect offline in
  emitted offline = emitted s ∧
  emitted online = emitted s ++ messageQueue s ++ messages ∧
  messageQueue online = [] ∧
  (∀ event data,
     emitted (emit event data online) = emitted online ++ [(event, data)] ∧
     messageQueue (emit event data online) = []).
Proof.
  intros Hoff offline online. subst online offline.
  rewrite emit_all_offline by done.
  unfold on_connect, processMessageQueue. cbn. rewrite drain_app.
  repeat split.
Qed.

End ClientProperties.

(** * The further properties at work *)

(** X1 at work: [u2] is admitted while [u1] is connected. *)
Lemma admission_announces_witness :
  let w := Scenario.one_user Scenario.ticking in
  let w' := (connect Scenario.ticking Scenario.jwt_verify "s2"
               (Scenario.auth "token-u2") w).2 in
  members "user-u2" w' = {["s2"]} ∪ members "user-u2" w ∧
  new_effects w w' =
    [ConsoleLog "✅ User u2 connected via Socket.io";
     Emit (dom (sockets w)) (user_online "u2" (Scenario.ticking (S (S (dates w)))))].
Proof.
  intros w w'.
  destruct (admission_joins_personal_room_and_announces Scenario.ticking
              Scenario.jwt_verify w "s2" (Scenario.auth "token-u2")
              {| d_userId := "u2"; d_email := "u2@learnova.test" |})
    as (_ & _ & Hroom & Heff & _).
  - apply reachable_one_user.
  - vm_compute. reflexivity.
  - reflexivity.
  - reflexivity.
  - reflexivity.
  - split; [exact Hroom | exact Heff].
Defined.

(** X2 at work: the socket of [u1] is in the room "user-u1". *)
Lemma personal_room_witness :
  "s1" ∈ members "user-u1" (Scenario.two_users Scenario.ticking).
Proof.
  apply (personal_room_holds_the_sockets_of_its_identity Scenario.ticking
           Scenario.jwt_verify (Scenario.two_users Scenario.ticking)
           (reachable_two_users Scenario.ticking) "s1" "u1").
  exists Scenario.socket1. split; [vm_compute; reflexivity | reflexivity].
Defined.

(** X3 at work: [u1], who has not joined [g1], sends a note to it. *)
Lemma collaboration_relay_witness :
  let w := Scenario.u2_in_g1 Scenario.ticking in
  let w' := (receive Scenario.ticking "s1" (collaboration_update_in Samples.note) w).2 in
  new_effects w w' =
    [Emit (members "group-g1" w ∖ {["s1"]})
       (collaboration_update "u1" (JStr "note") (JStr "hello")
          (Scenario.ticking (dates w)))] ∧
  activeUsers w' = activeUsers w ∧ rooms w' = rooms w ∧ sockets w' = sockets w.
Proof.
  intros w w'.
  apply (collaboration_update_is_relayed_to_the_group Scenario.ticking
           Scenario.jwt_verify w "s1" Scenario.socket1 Samples.note "g1").
  - apply reachable_u2_in_g1.
  - vm_compute. reflexivity.
  - reflexivity.
  - reflexivity.
Defined.

(** X4 at work: a progress report for the session [live1]. *)
Lemma practice_update_witness :
  let w := Scenario.two_users Scenario.ticking in
  new_effects w
    (receive Scenario.ticking "s1" (practice_update_in Samples.progress_report) w).2 =
    [Emit ∅ (practice_update "u1" (JNum "40") (JNum "90") (Scenario.ticking (dates w)))].
Proof.
  intros w.
  apply (practice_update_reaches_nobody Scenario.ticking Scenario.jwt_verify w "s1"
           Scenario.socket1 Samples.progress_report "live1").
  - apply reachable_two_users.
  - vm_compute. reflexivity.
  - reflexivity.
  - reflexivity.
  - vm_compute. reflexivity.
Defined.

(** X5 at work: [typing] with an empty array as [roomId]. *)
Lemma typing_edges_witness :
  let w := Scenario.two_users Scenario.ticking in
  new_effects w
    (receive Scenario.ticking "s1" (typing (JObj [("roomId", JArr [])])) w).2 =
    [Emit (dom (sockets w) ∖ {["s1"]})
       (user_typing "u1" (Scenario.ticking (dates w)))].
Proof.
  intros w.
  destruct (typing_edge_cases Scenario.ticking Scenario.jwt_verify w "s1"
              Scenario.socket1) as (Hall & _ & _).
  - apply reachable_two_users.
  - vm_compute. reflexivity.
  - apply Hall. reflexivity.
Defined.

(** X6 at work: [u1] joins [g1] twice. *)
Lemma joining_again_witness :
  let w := Scenario.two_users Scenario.ticking in
  let w1 := (receive Scenario.ticking "s1" (join_study_group (JStr "g1")) w).2 in
  let w2 := (receive Scenario.ticking "s1" (join_study_group (JStr "g1")) w1).2 in
  rooms w2 = rooms w1.
Proof.
  intros w w1 w2.
  apply (joining_again_changes_no_membership Scenario.ticking Scenario.jwt_verify
           w "s1" Scenario.socket1 (JStr "g1") "g1").
  - apply reachable_two_users.
  - vm_compute. reflexivity.
  - reflexivity.
Defined.

(** X7 at work: the entry of [u1]. *)
Lemma registry_entry_witness :
  ∃ sid socket,
    sockets (Scenario.two_users Scenario.ticking) !! sid = Some socket ∧
    userId socket = "u1".
Proof.
  apply (registry_entries_have_a_connection Scenario.ticking Scenario.jwt_verify
           (Scenario.two_users Scenario.ticking) "u1"
           {| socketId := "s1"; connectedAt := Scenario.ticking 0;
              lastSeen := Scenario.ticking 1 |}).
  - apply reachable_two_users.
  - vm_compute. reflexivity.
Defined.

Section WorkerWitnesses.

Import ServiceWorker Worker.

(** X9 at work: a navigation to the root is handled cache first. *)
Lemma fetch_routing_witness : route Samples.root_navigation = StaticRoute.
Proof.
  apply (fetch_routing Samples.root_navigation).
  - reflexivity.
  - discriminate.
  - reflexivity.
  - reflexivity.
Defined.

(** X10 at work: the profile is cached; the network is down, or answers
    with a partial response. *)
Lemma api_cache_first_witness :
  served (handleAPIRequest Samples.profile_request NetworkError Samples.api_cached)
    = Some (FromCache Samples.stale) ∧
  caches_after
    (handleAPIRequest Samples.profile_request (Fetched Samples.ranged) Samples.api_cached)
    = Samples.api_cached.
Proof.
  destruct (api_cache_answers_first Samples.profile_request Samples.api_cached
              Samples.stale NetworkError) as [Hdown _].
  - reflexivity.
  - vm_compute. reflexivity.
  - destruct (api_cache_answers_first Samples.profile_request Samples.api_cached
                Samples.stale (Fetched Samples.ranged)) as (_ & _ & Hkept).
    + reflexivity.
    + vm_compute. reflexivity.
    + split; [exact Hdown | exact Hkept].
Defined.

(** X11 at work: the profile is fetched once, then the network goes,
    after the put has settled or before. *)
Lemma api_next_time_witness :
  served (handleAPIRequest Samples.profile_request NetworkError
            (caches_after
               (handleAPIRequest Samples.profile_request (Fetched Samples.fresh) ∅)))
    = Some (FromCache Samples.fresh) ∧
  served (handleAPIRequest Samples.profile_request NetworkError (opened API_CACHE ∅))
    = Some api_offline.
Proof.
  destruct (api_response_is_served_from_cache_next_time Samples.profile_request ∅
              Samples.fresh NetworkError) as [Hsettled Hbefore].
  - reflexivity.
  - reflexivity.
  - split.
    + apply Hsettled. reflexivity.
    + destruct Hbefore as [Hmiss _]; [reflexivity | exact Hmiss].
Defined.

(** X12 at work: a server error for the profile is handed on, not kept. *)
Lemma api_not_cached_witness :
  let h := handleAPIRequest Samples.profile_request (Fetched Samples.broken) ∅ in
  served h = Some (FromNetwork Samples.broken) ∧
  cache_match (url Samples.profile_request) (cache_of API_CACHE (caches_after h)) = None.
Proof.
  destruct (api_failures_are_not_cached Samples.profile_request ∅) as [_ Hlisted].
  destruct Hlisted as [Hbad _].
  - reflexivity.
  - reflexivity.
  - apply Hbad. reflexivity.
Defined.


(** X14 at work: offline, with nothing cached. *)
Lemma offline_fallback_witness :
  served (handleNavigationRequest Samples.origin Samples.about_navigation
            NetworkError ∅)
    = Some (Made 503 "App not available offline" (Some "text/html")) ∧
  served (handleStaticRequest Samples.origin Samples.root_navigation NetworkError ∅)
    = None.
Proof.
  destruct (offline_fallbacks Samples.origin Samples.about_navigation ∅)
    as [_ Habout].
  destruct (offline_fallbacks Samples.origin Samples.root_navigation ∅)
    as [_ Hroot].
  split.
  - apply Habout. reflexivity.
  - apply Hroot; reflexivity.
Defined.

(** X16 at work: the cleanup of a dynamic cache of fifty entries. *)
Lemma cleanup_witness :
  (length (cache_of DYNAMIC_CACHE (performCacheCleanup Samples.crowded)) ≤ 30)%nat ∧
  cache_of DYNAMIC_CACHE (performCacheCleanup Samples.crowded) = drop 20 full_cache.
Proof.
  destruct (cleanup_keeps_the_newest Samples.crowded) as (Hdyn & _ & Hlen & _).
  - apply (bool_decide_unpack _). vm_compute. exact I.
  - apply (bool_decide_unpack _). vm_compute. exact I.
  - split; [exact Hlen | exact Hdyn].
Defined.

(** X17 at work: a new image is fetched, then requested offline; and
    the same with a partial response. *)
Lemma dynamic_replay_witness :
  (let cache' := (handleDynamicRequest (PutAfterDeletes 0) "/img/new.png"
                    (Fetched Samples.fresh) full_cache).2 in
   handleDynamicRequest PutBeforeKeys "/img/new.png" NetworkError cache' =
     (Samples.fresh, cache')) ∧
  (let cache' := (handleDynamicRequest (PutAfterDeletes 0) "/img/new.png"
                    (Fetched Samples.ranged) full_cache).2 in
   handleDynamicRequest PutBeforeKeys "/img/new.png" NetworkError cache' =
     ({| status := 503; body := "Resource not available offline" |}, cache')).
Proof.
  assert (NoDup (cache_keys full_cache)) as Hdistinct
    by (apply (bool_decide_unpack _); vm_compute; exact I).
  assert ("/img/new.png" ∉ cache_keys full_cache) as Hnew
    by (apply (bool_decide_unpack _); vm_compute; exact I).
  split.
  - exact (dynamic_response_is_replayed_offline (PutAfterDeletes 0) PutBeforeKeys
             "/img/new.png" Samples.fresh full_cache Hdistinct Hnew eq_refl).
  - exact (dynamic_response_is_replayed_offline (PutAfterDeletes 0) PutBeforeKeys
             "/img/new.png" Samples.ranged full_cache Hdistinct Hnew eq_refl).
Defined.

(** X18 at work: fifty entries trimmed to thirty. *)
Lemma limitCacheSize_witness :
  limitCacheSize 30 full_cache = drop (length full_cache - 30) full_cache.
Proof.
  apply (limitCacheSize_keeps_the_newest 30 full_cache).
  apply (bool_decide_unpack _). vm_compute. exact I.
Defined.

(** X19 at work: the full dynamic cache after one more URL, and after
    three handlers in flight together. *)
Lemma dynamic_bound_witness :
  (length (trim_and_put PutBeforeKeys "/img/new.png" Samples.fresh full_cache)
   ≤ S DYNAMIC_LIMIT)%nat ∧
  ∃ p, overlapped Samples.in_flight (reads_first 3) full_cache = Some p ∧
       settled Samples.in_flight p = true ∧
       length (entries p) = (length full_cache + 3)%nat.
Proof.
  destruct dynamic_cache_limit_holds_only_without_overlap as [Halone Hoverlap].
  split.
  - apply (Halone PutBeforeKeys "/img/new.png" Samples.fresh full_cache).
    + apply (bool_decide_unpack _). vm_compute. exact I.
    + apply (bool_decide_unpack _). vm_compute. exact I.
  - destruct (Hoverlap Samples.in_flight full_cache) as (p & Hrun & Hsettled & _ & Hlen).
    + apply (bool_decide_unpack _). vm_compute. exact I.
    + apply (bool_decide_unpack _). vm_compute. exact I.
    + intros request response Hin.
      unfold Samples.in_flight in Hin.
      repeat (apply elem_of_cons in Hin as [Hin|Hin];
              [injection Hin as -> ->; reflexivity|]).
      by apply elem_of_nil in Hin.
    + exists p. split; [exact Hrun|]. split; [exact Hsettled | exact Hlen].
Defined.

End WorkerWitnesses.

(** X20 at work: a request with the token of [u1]. *)
Lemma authenticateToken_witness :
  (Http.authenticateToken Scenario.ticking Scenario.jwt_verify
     (Some "Bearer token-u1") false Scenario.start).1 =
    Normal (Http.Next {| d_userId := "u1"; d_email := "u1@learnova.test" |}).
Proof.
  destruct (authenticateToken_outcomes Scenario.ticking Scenario.jwt_verify
              (Some "Bearer token-u1") false Scenario.start) as (_ & _ & Hok).
  destruct (Hok eq_refl {| d_userId := "u1"; d_email := "u1@learnova.test" |})
    as [Hnext _].
  - reflexivity.
  - exact Hnext.
Defined.

(** X21 at work: the header "Bearer token-u1". *)
Lemma bearer_witness : Http.bearer (Some "Bearer token-u1") = JStr "token-u1".
Proof.
  destruct bearer_reads_the_second_word as [Hword _].
  apply (Hword "Bearer" "token-u1"); reflexivity.
Defined.

(** X22 at work: two messages handed in while offline. *)
Lemma queue_witness :
  let offline :=
    Client.startTyping (JStr "group-g1")
      (Client.joinStudyGroup (JStr "g1") Samples.offline_service) in
  Client.emitted offline = [] ∧
  Client.emitted (Client.on_connect offline) =
    [("join-study-group", JStr "g1");
     ("typing", JObj [("roomId", JStr "group-g1")])].
Proof.
  destruct (queued_messages_are_flushed_in_order Samples.offline_service
              [("join-study-group", JStr "g1");
               ("typing", JObj [("roomId", JStr "group-g1")])])
    as (Hkept & Hflushed & _).
  - reflexivity.
  - split; [exact Hkept | exact Hflushed].
Defined.
